(** * ngx-mat-timepicker: the overlay controller and its toggle

    A shallow embedding of [MatTimepickerBase] (timepicker-base.ts) and of
    [MatTimepickerToggle] (timepicker-toggle.ts).  The two classes are
    stateful and may throw, so their methods are written in a small
    state-and-exception monad over a [World] that holds the picker instance,
    the overlay container of the CDK [Overlay] service, the pending
    subscriptions and the trace of observable effects. *)

From Stdlib Require Import ZArith.
From Stdlib Require Import SpecFloat.
From stdpp Require Import base option list strings pretty.

Local Open Scope string_scope.
Local Open Scope list_scope.

(** ** Values of the host language and of the framework *)

(** [BooleanInput] of @angular/cdk/coercion: string | boolean | null | undefined. *)
Inductive BooleanInput : Type :=
| BI_undefined
| BI_null
| BI_boolean (b : bool)
| BI_string (s : string).

(** [coerceBooleanProperty] of @angular/cdk/coercion:
    [value != null && `${value}` !== 'false']. *)
Definition coerceBooleanProperty (value : BooleanInput) : bool :=
  match value with
  | BI_undefined | BI_null => false
  | BI_boolean b => b
  | BI_string s => negb (String.eqb s "false")
  end.

(** A property declared [boolean] without initialiser is [undefined] until it
    is first assigned. *)
Definition truthy (v : option bool) : bool :=
  match v with
  | Some b => b
  | None => false
  end.

Inductive TimepickerOpenAs : Type := dialog | popup.
Inductive TimepickerDropdownPositionX : Type := X_start | X_end.
Inductive TimepickerDropdownPositionY : Type := Y_above | Y_below.

(** [ThemePalette] of @angular/material/core. *)
Inductive ThemePalette : Type := palette_primary | palette_accent | palette_warn | palette_undefined.

Definition palette_or (a b : ThemePalette) : ThemePalette :=
  match a with
  | palette_undefined => b
  | _ => a
  end.

Definition openAs_name (v : TimepickerOpenAs) : string :=
  match v with
  | dialog => "dialog"
  | popup => "popup"
  end.

#[global] Instance TimepickerOpenAs_eq_dec : EqDecision TimepickerOpenAs.
Proof. solve_decision. Defined.
#[global] Instance PositionX_eq_dec : EqDecision TimepickerDropdownPositionX.
Proof. solve_decision. Defined.
#[global] Instance PositionY_eq_dec : EqDecision TimepickerDropdownPositionY.
Proof. solve_decision. Defined.

(** The part of [MatTimepickerInput] (timepicker-input.ts) that the base class
    calls: the two getters.  An input is an object, hence always truthy. *)
Record MatTimepickerInput : Type := {
  getThemePalette : ThemePalette;
  getConnectedOverlayOrigin : nat
}.

(** ** Key codes and keyboard events (@angular/cdk/keycodes) *)

Definition ESCAPE : Z := 27.
Definition PAGE_UP : Z := 33.
Definition PAGE_DOWN : Z := 34.
Definition LEFT_ARROW : Z := 37.
Definition UP_ARROW : Z := 38.
Definition RIGHT_ARROW : Z := 39.
Definition DOWN_ARROW : Z := 40.

Record KeyboardEvent : Type := {
  keyCode : Z;
  altKey : bool;
  shiftKey : bool;
  ctrlKey : bool;
  metaKey : bool
}.

Inductive ModifierKey : Type := mod_altKey | mod_shiftKey | mod_ctrlKey | mod_metaKey.

Definition modifier_of (event : KeyboardEvent) (m : ModifierKey) : bool :=
  match m with
  | mod_altKey => altKey event
  | mod_shiftKey => shiftKey event
  | mod_ctrlKey => ctrlKey event
  | mod_metaKey => metaKey event
  end.

(** [hasModifierKey(event, ...modifiers)]: with modifiers, whether some of them
    is pressed; without, whether any of the four is. *)
Definition hasModifierKey (event : KeyboardEvent) (modifiers : list ModifierKey) : bool :=
  match modifiers with
  | [] => altKey event || shiftKey event || ctrlKey event || metaKey event
  | _ => existsb (modifier_of event) modifiers
  end.

(** ** Overlays (@angular/cdk/overlay) *)

Inductive VerticalEdge : Type := edge_top | edge_bottom.

Record ConnectedPosition : Type := {
  originX : TimepickerDropdownPositionX;
  originY : VerticalEdge;
  overlayX : TimepickerDropdownPositionX;
  overlayY : VerticalEdge
}.

Inductive PositionStrategy : Type :=
| GlobalPositionStrategy (centerHorizontally centerVertically : bool)
| FlexibleConnectedPositionStrategy
    (origin : nat) (transformOriginOn : string) (flexibleDimensions : bool)
    (viewportMargin : Z) (lockedPosition : bool) (positions : list ConnectedPosition).

Inductive ScrollStrategy : Type := scroll_block | scroll_injected.

Record OverlayConfig : Type := {
  positionStrategy : PositionStrategy;
  hasBackdrop : bool;
  backdropClass : list string;
  direction : string;
  scrollStrategy : ScrollStrategy;
  panelClass : string
}.

(** The [MatTimepickerContent] instance rendered in an overlay: the two fields
    that [_forwardContentValues] writes. *)
Record MatTimepickerContent : Type := {
  content_timepicker : bool;
  content_color : ThemePalette
}.

(** An [OverlayRef] object: its configuration, whether a portal is attached,
    the component instance that [attach] rendered, and whether [dispose] has
    run.  The object outlives its disposal; it is named by its rank among the
    overlays that [Overlay.create] has made. *)
Record OverlayRef : Type := {
  getConfig : OverlayConfig;
  hasAttached : bool;
  instance : option MatTimepickerContent;
  disposed : bool
}.

(** ** The picker *)

Record MatTimepickerBase : Type := {
  _disabled : option bool;
  _opened : bool;
  _openAs : TimepickerOpenAs;
  _color : ThemePalette;
  xPosition : TimepickerDropdownPositionX;
  yPosition : TimepickerDropdownPositionY;
  id : string;
  timepickerInput : option MatTimepickerInput;
  _overlayRef : option nat;
  _componentRef : option nat;
  _backdropHarnessClass : string
}.

(** What the outside can observe of a run. *)
Inductive Effect : Type :=
| closedStream_emit
| preventDefault
| stopPropagation
| startExitAnimation (component : nat)
| overlay_create (overlay : nat)
| overlay_dispose (overlay : nat)
| overlay_updatePosition (overlay : nat).

#[global] Instance Effect_eq_dec : EqDecision Effect.
Proof. solve_decision. Defined.

Record World : Type := {
  picker : MatTimepickerBase;
  (** every overlay that [_overlay.create] has made, in order of creation *)
  overlays : list OverlayRef;
  (** instances on whose [_animationDone] a [first()] subscription of [close] waits *)
  animationDone_subscribers : list nat;
  (** overlays whose [updatePosition] waits for [_ngZone.onStable] *)
  onStable_subscribers : list nat;
  trace : list Effect
}.

(** ** Running methods: state, and completion by return or by throw *)

Inductive Completion (A : Type) : Type :=
| Return (a : A)
| Throw (message : string).
Arguments Return {A} a.
Arguments Throw {A} message.

Definition Run (A : Type) : Type := World -> World * Completion A.

Definition ret {A} (a : A) : Run A := fun w => (w, Return a).

Definition bind {A B} (m : Run A) (k : A -> Run B) : Run B :=
  fun w =>
    match m w with
    | (w', Return a) => k a w'
    | (w', Throw e) => (w', Throw e)
    end.

Definition throw {A} (message : string) : Run A := fun w => (w, Throw message).

Declare Scope run_scope.
Delimit Scope run_scope with run.
Notation "'let*' x ':=' m 'in' k" := (bind m (fun x => k))
  (at level 10, x name, m at level 100, k at level 200) : run_scope.
Notation "m ';;' k" := (bind m (fun _ => k))
  (at level 100, k at level 200, right associativity) : run_scope.
Local Open Scope run_scope.

Definition with_picker (f : MatTimepickerBase -> MatTimepickerBase) (w : World) : World :=
  {| picker := f (picker w); overlays := overlays w;
     animationDone_subscribers := animationDone_subscribers w;
     onStable_subscribers := onStable_subscribers w; trace := trace w |}.

Definition with_overlays (f : list OverlayRef -> list OverlayRef) (w : World) : World :=
  {| picker := picker w; overlays := f (overlays w);
     animationDone_subscribers := animationDone_subscribers w;
     onStable_subscribers := onStable_subscribers w; trace := trace w |}.

Definition with_animationDone (f : list nat -> list nat) (w : World) : World :=
  {| picker := picker w; overlays := overlays w;
     animationDone_subscribers := f (animationDone_subscribers w);
     onStable_subscribers := onStable_subscribers w; trace := trace w |}.

Definition with_onStable (f : list nat -> list nat) (w : World) : World :=
  {| picker := picker w; overlays := overlays w;
     animationDone_subscribers := animationDone_subscribers w;
     onStable_subscribers := f (onStable_subscribers w); trace := trace w |}.

Definition with_trace (f : list Effect -> list Effect) (w : World) : World :=
  {| picker := picker w; overlays := overlays w;
     animationDone_subscribers := animationDone_subscribers w;
     onStable_subscribers := onStable_subscribers w; trace := f (trace w) |}.

Definition this : Run MatTimepickerBase := fun w => (w, Return (picker w)).
Definition world : Run World := fun w => (w, Return w).
Definition modify (f : World -> World) : Run unit := fun w => (f w, Return tt).
Definition update (f : MatTimepickerBase -> MatTimepickerBase) : Run unit :=
  modify (with_picker f).
Definition emit (e : Effect) : Run unit := modify (with_trace (fun t => t ++ [e])).
Definition when (c : bool) (m : Run unit) : Run unit := if c then m else ret tt.

Definition defined {A} (v : option A) : bool :=
  match v with
  | Some _ => true
  | None => false
  end.

(** *** Field assignments *)

Definition set__disabled (v : option bool) (p : MatTimepickerBase) : MatTimepickerBase :=
  {| _disabled := v; _opened := _opened p; _openAs := _openAs p; _color := _color p;
     xPosition := xPosition p; yPosition := yPosition p; id := id p;
     timepickerInput := timepickerInput p; _overlayRef := _overlayRef p;
     _componentRef := _componentRef p; _backdropHarnessClass := _backdropHarnessClass p |}.

Definition set__opened (v : bool) (p : MatTimepickerBase) : MatTimepickerBase :=
  {| _disabled := _disabled p; _opened := v; _openAs := _openAs p; _color := _color p;
     xPosition := xPosition p; yPosition := yPosition p; id := id p;
     timepickerInput := timepickerInput p; _overlayRef := _overlayRef p;
     _componentRef := _componentRef p; _backdropHarnessClass := _backdropHarnessClass p |}.

Definition set__openAs (v : TimepickerOpenAs) (p : MatTimepickerBase) : MatTimepickerBase :=
  {| _disabled := _disabled p; _opened := _opened p; _openAs := v; _color := _color p;
     xPosition := xPosition p; yPosition := yPosition p; id := id p;
     timepickerInput := timepickerInput p; _overlayRef := _overlayRef p;
     _componentRef := _componentRef p; _backdropHarnessClass := _backdropHarnessClass p |}.

Definition set__color (v : ThemePalette) (p : MatTimepickerBase) : MatTimepickerBase :=
  {| _disabled := _disabled p; _opened := _opened p; _openAs := _openAs p; _color := v;
     xPosition := xPosition p; yPosition := yPosition p; id := id p;
     timepickerInput := timepickerInput p; _overlayRef := _overlayRef p;
     _componentRef := _componentRef p; _backdropHarnessClass := _backdropHarnessClass p |}.

Definition set_xPosition (v : TimepickerDropdownPositionX) (p : MatTimepickerBase) : MatTimepickerBase :=
  {| _disabled := _disabled p; _opened := _opened p; _openAs := _openAs p; _color := _color p;
     xPosition := v; yPosition := yPosition p; id := id p;
     timepickerInput := timepickerInput p; _overlayRef := _overlayRef p;
     _componentRef := _componentRef p; _backdropHarnessClass := _backdropHarnessClass p |}.

Definition set_yPosition (v : TimepickerDropdownPositionY) (p : MatTimepickerBase) : MatTimepickerBase :=
  {| _disabled := _disabled p; _opened := _opened p; _openAs := _openAs p; _color := _color p;
     xPosition := xPosition p; yPosition := v; id := id p;
     timepickerInput := timepickerInput p; _overlayRef := _overlayRef p;
     _componentRef := _componentRef p; _backdropHarnessClass := _backdropHarnessClass p |}.

Definition set_timepickerInput (v : option MatTimepickerInput) (p : MatTimepickerBase) : MatTimepickerBase :=
  {| _disabled := _disabled p; _opened := _opened p; _openAs := _openAs p; _color := _color p;
     xPosition := xPosition p; yPosition := yPosition p; id := id p;
     timepickerInput := v; _overlayRef := _overlayRef p;
     _componentRef := _componentRef p; _backdropHarnessClass := _backdropHarnessClass p |}.

Definition set__overlayRef (v : option nat) (p : MatTimepickerBase) : MatTimepickerBase :=
  {| _disabled := _disabled p; _opened := _opened p; _openAs := _openAs p; _color := _color p;
     xPosition := xPosition p; yPosition := yPosition p; id := id p;
     timepickerInput := timepickerInput p; _overlayRef := v;
     _componentRef := _componentRef p; _backdropHarnessClass := _backdropHarnessClass p |}.

Definition set__componentRef (v : option nat) (p : MatTimepickerBase) : MatTimepickerBase :=
  {| _disabled := _disabled p; _opened := _opened p; _openAs := _openAs p; _color := _color p;
     xPosition := xPosition p; yPosition := yPosition p; id := id p;
     timepickerInput := timepickerInput p; _overlayRef := _overlayRef p;
     _componentRef := v; _backdropHarnessClass := _backdropHarnessClass p |}.

(** *** Construction

    [timepickerUid] is the module counter that the field initialiser of [id]
    reads and increments.  Fields declared without initialiser are
    [undefined]; [_opened], [_openAs], [xPosition] and [yPosition] have one. *)
Definition MatTimepickerBase_new (timepickerUid : nat) : MatTimepickerBase :=
  let id := "mat-timepicker-" +:+ pretty timepickerUid in
  {| _disabled := None; _opened := false; _openAs := popup; _color := palette_undefined;
     xPosition := X_start; yPosition := Y_below; id := id;
     timepickerInput := None; _overlayRef := None; _componentRef := None;
     _backdropHarnessClass := id +:+ "-backdrop" |}.

Definition World_new (timepickerUid : nat) : World :=
  {| picker := MatTimepickerBase_new timepickerUid; overlays := [];
     animationDone_subscribers := []; onStable_subscribers := []; trace := [] |}.

(** *** Accessors *)

(** [get disabled] *)
Definition disabled_get (p : MatTimepickerBase) : option bool := _disabled p.

(** [set disabled] *)
Definition disabled_set (value : BooleanInput) : Run unit :=
  let newValue := coerceBooleanProperty value in
  let* p := this in
  if decide (Some newValue = _disabled p) then ret tt
  else update (set__disabled (Some newValue)).

(** [get opened] *)
Definition opened (p : MatTimepickerBase) : bool := _opened p.

(** [set openAs]: [value || 'popup'] *)
Definition openAs_set (value : option TimepickerOpenAs) : Run unit :=
  update (set__openAs (default popup value)).

(** [get color] *)
Definition color (p : MatTimepickerBase) : ThemePalette :=
  palette_or (_color p)
    (match timepickerInput p with
     | Some input => getThemePalette input
     | None => palette_undefined
     end).

(** *** Closing *)

(** [close()].  The subscription on [instance._animationDone.pipe(first())]
    is recorded; it runs [_destroyOverlay] when that subject next emits. *)
Definition close : Run unit :=
  let* p := this in
  if negb (_opened p) then ret tt
  else
    match _componentRef p with
    | Some c =>
        emit (startExitAnimation c);;
        modify (with_animationDone (fun subs => subs ++ [c]))
    | None => ret tt
    end;;
    let* p := this in
    when (_opened p) (update (set__opened false);; emit closedStream_emit).

(** *** The close stream *)

Inductive OverlayEvent : Type :=
| backdropClick
| detachment
| keydown (event : KeyboardEvent).

(** [_getCloseStream(overlayRef)]: the events of the overlay for which the
    merged observable emits.  The filter reads [this.timepickerInput] when the
    key event arrives. *)
Definition _getCloseStream (p : MatTimepickerBase) (ev : OverlayEvent) : bool :=
  match ev with
  | backdropClick => true
  | detachment => true
  | keydown event =>
      (Z.eqb (keyCode event) ESCAPE && negb (hasModifierKey event []))
      || (defined (timepickerInput p)
          && hasModifierKey event [mod_altKey]
          && Z.eqb (keyCode event) UP_ARROW)
  end.

(** The subscriber of the close stream in [_openOverlay].  [detachments()]
    emits [void], the other two streams emit the DOM event. *)
Definition closeStream_subscriber (ev : OverlayEvent) : Run unit :=
  when (match ev with detachment => false | _ => true end) (emit preventDefault);;
  close.

(** The second subscriber of [keydownEvents()] in [_openOverlay]. *)
Definition keydown_subscriber (event : KeyboardEvent) : Run unit :=
  let keyCode := keyCode event in
  when (Z.eqb keyCode UP_ARROW || Z.eqb keyCode DOWN_ARROW
        || Z.eqb keyCode LEFT_ARROW || Z.eqb keyCode RIGHT_ARROW
        || Z.eqb keyCode PAGE_UP || Z.eqb keyCode PAGE_DOWN)
       (emit preventDefault).

(** An event of an overlay reaches the subscribers in the order in which
    [_openOverlay] subscribed. *)
Definition deliver (ev : OverlayEvent) : Run unit :=
  let* p := this in
  when (_getCloseStream p ev) (closeStream_subscriber ev);;
  match ev with
  | keydown event => keydown_subscriber event
  | _ => ret tt
  end.

(** *** Overlay operations of the CDK, as the picker uses them *)

Definition set_disposed (r : OverlayRef) : OverlayRef :=
  {| getConfig := getConfig r; hasAttached := false; instance := instance r; disposed := true |}.

Definition set_detached (r : OverlayRef) : OverlayRef :=
  {| getConfig := getConfig r; hasAttached := false; instance := instance r;
     disposed := disposed r |}.

Definition set_instance (c : MatTimepickerContent) (r : OverlayRef) : OverlayRef :=
  {| getConfig := getConfig r; hasAttached := true; instance := Some c;
     disposed := disposed r |}.

Definition set_positionStrategy (s : PositionStrategy) (r : OverlayRef) : OverlayRef :=
  {| getConfig :=
       {| positionStrategy := s; hasBackdrop := hasBackdrop (getConfig r);
          backdropClass := backdropClass (getConfig r); direction := direction (getConfig r);
          scrollStrategy := scrollStrategy (getConfig r); panelClass := panelClass (getConfig r) |};
     hasAttached := hasAttached r; instance := instance r; disposed := disposed r |}.

(** [this._overlay.create(config)]: a new overlay, nothing attached. *)
Definition Overlay_create (config : OverlayConfig) : Run nat :=
  let* w := world in
  let overlayRef := length (overlays w) in
  modify (with_overlays (fun l =>
    l ++ [{| getConfig := config; hasAttached := false; instance := None; disposed := false |}]));;
  emit (overlay_create overlayRef);;
  ret overlayRef.

(** [overlayRef.attach(portal)]: renders a [MatTimepickerContent] and returns
    the reference to it, which is named like its overlay. *)
Definition OverlayRef_attach (overlayRef : nat) : Run nat :=
  modify (with_overlays
    (alter (set_instance {| content_timepicker := false; content_color := palette_undefined |})
       overlayRef));;
  ret overlayRef.

(** [overlayRef.updatePosition()]: applies the position strategy, which does
    nothing once disposed. *)
Definition OverlayRef_updatePosition (overlayRef : nat) : Run unit :=
  let* w := world in
  match overlays w !! overlayRef with
  | Some r => when (negb (disposed r)) (emit (overlay_updatePosition overlayRef))
  | None => ret tt
  end.

(** [overlayRef.dispose()]: removes the overlay and its content; when a portal
    was attached, [detachments()] emits once, which reaches the subscriber of
    the close stream, before the streams complete. *)
Definition OverlayRef_dispose (overlayRef : nat) : Run unit :=
  let* w := world in
  match overlays w !! overlayRef with
  | Some r =>
      if disposed r then ret tt
      else
        modify (with_overlays (alter set_disposed overlayRef));;
        emit (overlay_dispose overlayRef);;
        when (hasAttached r) (deliver detachment)
  | None => ret tt
  end.

(** *** Opening *)

(** [_destroyOverlay()] *)
Definition _destroyOverlay : Run unit :=
  let* p := this in
  match _overlayRef p with
  | Some overlayRef =>
      OverlayRef_dispose overlayRef;;
      update (fun p => set__overlayRef None (set__componentRef None p))
  | None => ret tt
  end.

(** The four positions that [_setConnectedPositions] passes to [withPositions]. *)
Definition connectedPositions (p : MatTimepickerBase) : list ConnectedPosition :=
  let primaryX := if decide (xPosition p = X_end) then X_end else X_start in
  let secondaryX := if decide (primaryX = X_start) then X_end else X_start in
  let primaryY := if decide (yPosition p = Y_above) then edge_bottom else edge_top in
  let secondaryY :=
    match primaryY with
    | edge_top => edge_bottom
    | edge_bottom => edge_top
    end in
  [ {| originX := primaryX; originY := secondaryY; overlayX := primaryX; overlayY := primaryY |};
    {| originX := primaryX; originY := primaryY; overlayX := primaryX; overlayY := secondaryY |};
    {| originX := secondaryX; originY := secondaryY; overlayX := secondaryX; overlayY := primaryY |};
    {| originX := secondaryX; originY := primaryY; overlayX := secondaryX; overlayY := secondaryY |} ].

(** [_setConnectedPositions(strategy)]: [withPositions] replaces the positions
    of the strategy it is called on. *)
Definition _setConnectedPositions (p : MatTimepickerBase) (strategy : PositionStrategy)
  : PositionStrategy :=
  match strategy with
  | FlexibleConnectedPositionStrategy o t f m l _ =>
      FlexibleConnectedPositionStrategy o t f m l (connectedPositions p)
  | GlobalPositionStrategy _ _ => strategy
  end.

(** [_getDialogStrategy()] *)
Definition _getDialogStrategy : PositionStrategy := GlobalPositionStrategy true true.

(** [_getDropdownStrategy()].  Reading [getConnectedOverlayOrigin] of an
    undefined input is a TypeError of the language. *)
Definition _getDropdownStrategy : Run PositionStrategy :=
  let* p := this in
  match timepickerInput p with
  | Some input =>
      let strategy :=
        FlexibleConnectedPositionStrategy (getConnectedOverlayOrigin input)
          ".mat-timepicker-content" false 8 true [] in
      ret (_setConnectedPositions p strategy)
  | None => throw "TypeError: Cannot read properties of undefined (reading 'getConnectedOverlayOrigin')"
  end.

(** [_forwardContentValues(instance)] *)
Definition _forwardContentValues (component : nat) : Run unit :=
  let* p := this in
  modify (with_overlays
    (alter (set_instance {| content_timepicker := true; content_color := color p |}) component)).

(** [_openOverlay()] *)
Definition _openOverlay : Run unit :=
  _destroyOverlay;;
  let* p := this in
  let isDialog := bool_decide (_openAs p = dialog) in
  let* strategy := (if isDialog then ret _getDialogStrategy else _getDropdownStrategy) in
  let* overlayRef :=
    Overlay_create
      {| positionStrategy := strategy;
         hasBackdrop := true;
         backdropClass :=
           [ if isDialog then "cdk-overlay-dark-backdrop" else "mat-overlay-transparent-backdrop";
             _backdropHarnessClass p ];
         direction := "ltr";
         scrollStrategy := if isDialog then scroll_block else scroll_injected;
         panelClass := "mat-timepicker-" +:+ openAs_name (_openAs p) |} in
  update (set__overlayRef (Some overlayRef));;
  let* component := OverlayRef_attach overlayRef in
  update (set__componentRef (Some component));;
  _forwardContentValues component;;
  when (negb isDialog) (modify (with_onStable (fun subs => subs ++ [overlayRef]))).

(** [open()] *)
Definition open : Run unit :=
  let* p := this in
  if _opened p || truthy (disabled_get p) then ret tt
  else
    if negb (defined (timepickerInput p))
    then throw "Attempted to open an MatTimepicker with no associated input."
    else
      _openOverlay;;
      update (set__opened true).

(** [set opened] *)
Definition opened_set (value : BooleanInput) : Run unit :=
  if coerceBooleanProperty value then open else close.

(** [registerInput(input)] *)
Definition registerInput (input : MatTimepickerInput) : Run unit :=
  let* p := this in
  if defined (timepickerInput p)
  then throw "A MatTimepicker can only be associated with a single input."
  else update (set_timepickerInput (Some input)).

(** *** Lifecycle hooks *)

Record SimpleChange : Type := { firstChange : bool }.

Record SimpleChanges : Type := {
  change_xPosition : option SimpleChange;
  change_yPosition : option SimpleChange
}.

(** [ngOnChanges(changes)] *)
Definition ngOnChanges (changes : SimpleChanges) : Run unit :=
  let positionChange :=
    match change_xPosition changes with
    | Some c => Some c
    | None => change_yPosition changes
    end in
  let* p := this in
  let* w := world in
  match positionChange, _overlayRef p with
  | Some c, Some overlayRef =>
      if firstChange c then ret tt
      else
        match overlays w !! overlayRef with
        | Some r =>
            match positionStrategy (getConfig r) with
            | FlexibleConnectedPositionStrategy _ _ _ _ _ _ as positionStrategy =>
                modify (with_overlays
                  (alter (set_positionStrategy (_setConnectedPositions p positionStrategy))
                     overlayRef));;
                when (opened p) (OverlayRef_updatePosition overlayRef)
            | GlobalPositionStrategy _ _ => ret tt
            end
        | None => ret tt
        end
  | _, _ => ret tt
  end.

(** [ngOnDestroy()] *)
Definition ngOnDestroy : Run unit :=
  _destroyOverlay;;
  close.

(** ** What the environment can do to a picker

    The framework and the user drive the picker through its inputs, its
    public methods, its lifecycle hooks and the events of its overlay.  An
    uncaught error ends the handler that raised it and leaves the state as it
    was when it was thrown. *)

Inductive Action : Type :=
| act_disabled (value : BooleanInput)
| act_opened (value : BooleanInput)
| act_openAs (value : option TimepickerOpenAs)
| act_color (value : ThemePalette)
| act_xPosition (value : TimepickerDropdownPositionX)
| act_yPosition (value : TimepickerDropdownPositionY)
| act_ngOnChanges (changes : SimpleChanges)
| act_ngOnDestroy
| act_open
| act_close
| act_registerInput (input : MatTimepickerInput)
| act_overlayEvent (overlayRef : nat) (ev : OverlayEvent)
| act_animationDone (component : nat)
| act_onStable.

(** The overlay dispatches backdrop clicks and key presses while a portal is
    attached; a detachment from outside (a scroll strategy, say) detaches the
    portal and then emits. *)
Definition overlayEvent (overlayRef : nat) (ev : OverlayEvent) : Run unit :=
  let* w := world in
  match overlays w !! overlayRef with
  | Some r =>
      if negb (disposed r) && hasAttached r then
        when (match ev with detachment => true | _ => false end)
             (modify (with_overlays (alter set_detached overlayRef)));;
        deliver ev
      else ret tt
  | None => ret tt
  end.

(** [_animationDone] of a content instance emits: every [first()]
    subscription that [close] left on it runs [_destroyOverlay], once. *)
Definition animationDone (component : nat) : Run unit :=
  let* w := world in
  let waiting := filter (fun c => c = component) (animationDone_subscribers w) in
  modify (with_animationDone (filter (fun c => c <> component)));;
  foldr (fun _ k => _destroyOverlay;; k) (ret tt) waiting.

(** [_ngZone.onStable] emits: the subscriptions of [_openOverlay] update the
    position of the overlay each was made for. *)
Definition onStable : Run unit :=
  let* w := world in
  modify (with_onStable (fun _ => []));;
  foldr (fun overlayRef k => OverlayRef_updatePosition overlayRef;; k) (ret tt)
        (onStable_subscribers w).

Definition perform (a : Action) : Run unit :=
  match a with
  | act_disabled value => disabled_set value
  | act_opened value => opened_set value
  | act_openAs value => openAs_set value
  | act_color value => update (set__color value)
  | act_xPosition value => update (set_xPosition value)
  | act_yPosition value => update (set_yPosition value)
  | act_ngOnChanges changes => ngOnChanges changes
  | act_ngOnDestroy => ngOnDestroy
  | act_open => open
  | act_close => close
  | act_registerInput input => registerInput input
  | act_overlayEvent overlayRef ev => overlayEvent overlayRef ev
  | act_animationDone component => animationDone component
  | act_onStable => onStable
  end.

Definition step (a : Action) (w : World) : World := fst (perform a w).

(** The world after a history of actions, the first of the list first. *)
Definition after (history : list Action) (w : World) : World :=
  foldl (fun w a => step a w) w history.

(** The overlays that are open: created and not disposed of. *)
Definition open_overlays (w : World) : list OverlayRef :=
  filter (fun r => disposed r = false) (overlays w).

(** ** Numbers of the host language

    A number is an IEEE 754 binary64 value, a [spec_float] at precision 53.
    A string holds the UTF-8 encoding of its text. *)

Local Open Scope Z_scope.

Definition prec : Z := 53.
Definition emax : Z := 1024.

(** The code points of a string. *)
Fixpoint utf8_decode (bytes : list Z) : list Z :=
  match bytes with
  | [] => []
  | b :: r =>
      if b <? 128 then b :: utf8_decode r
      else if b <? 192 then 65533 :: utf8_decode r
      else if b <? 224 then
        match r with
        | b1 :: r' => ((b mod 32) * 64 + b1 mod 64) :: utf8_decode r'
        | _ => [65533]
        end
      else if b <? 240 then
        match r with
        | b1 :: b2 :: r' => ((b mod 16) * 4096 + (b1 mod 64) * 64 + b2 mod 64) :: utf8_decode r'
        | _ => [65533]
        end
      else
        match r with
        | b1 :: b2 :: b3 :: r' =>
            ((b mod 8) * 262144 + (b1 mod 64) * 4096 + (b2 mod 64) * 64 + b3 mod 64)
              :: utf8_decode r'
        | _ => [65533]
        end
  end.

Definition code_points (s : string) : list Z :=
  utf8_decode (map (fun c => Z.of_N (Ascii.N_of_ascii c)) (String.list_ascii_of_string s)).

(** [StrWhiteSpaceChar]: WhiteSpace (TAB, VT, FF, ZWNBSP and the space
    separators) or LineTerminator (LF, CR, LS, PS). *)
Definition StrWhiteSpaceChar (c : Z) : bool :=
  (c =? 9) || (c =? 10) || (c =? 11) || (c =? 12) || (c =? 13) || (c =? 32)
  || (c =? 160) || (c =? 5760) || ((8192 <=? c) && (c <=? 8202))
  || (c =? 8232) || (c =? 8233) || (c =? 8239) || (c =? 8287)
  || (c =? 12288) || (c =? 65279).

Fixpoint skip_white_space (l : list Z) : list Z :=
  match l with
  | c :: r => if StrWhiteSpaceChar c then skip_white_space r else l
  | [] => []
  end.

Definition trim (l : list Z) : list Z :=
  rev (skip_white_space (rev (skip_white_space l))).

Definition digit_value (radix : Z) (c : Z) : option Z :=
  let v :=
    if (48 <=? c) && (c <=? 57) then c - 48
    else if (97 <=? c) && (c <=? 102) then c - 87
    else if (65 <=? c) && (c <=? 70) then c - 55
    else 99 in
  if v <? radix then Some v else None.

(** The longest prefix of digits, as their values, and what follows it. *)
Fixpoint digits (radix : Z) (l : list Z) : list Z * list Z :=
  match l with
  | c :: r =>
      match digit_value radix c with
      | Some d => let '(ds, rest) := digits radix r in (d :: ds, rest)
      | None => ([], l)
      end
  | [] => ([], [])
  end.

Definition digits_value (radix : Z) (ds : list Z) : Z :=
  fold_left (fun acc d => acc * radix + d) ds 0.

(** The mathematical value [m * 10 ^ e] of a decimal literal, rounded to the
    nearest number, ties to even. *)
Definition round_decimal (negative : bool) (m e : Z) : spec_float :=
  if m =? 0 then S754_zero negative
  else if 0 <=? e then
    binary_normalize prec emax (cond_Zopp negative (m * 10 ^ e)) 0 negative
  else
    let d := 10 ^ (- e) in
    let k := Z.log2 d + 64 in
    let n := m * 2 ^ k in
    let q := n / d in
    let r := n mod d in
    let location := if r =? 0 then loc_Exact else loc_Inexact (Z.compare (2 * r) d) in
    binary_round_aux prec emax negative q (- k) location.

Definition round_integer (m : Z) : spec_float :=
  binary_normalize prec emax m 0 false.

(** [ExponentPart_opt] at the end of a literal: its value, if it is one. *)
Definition exponent_part (l : list Z) : option Z :=
  match l with
  | [] => Some 0
  | c :: r =>
      if (c =? 101) || (c =? 69) then
        let '(negative, r) :=
          match r with
          | 43 :: r' => (false, r')
          | 45 :: r' => (true, r')
          | _ => (false, r)
          end in
        match digits 10 r with
        | ((_ :: _) as ds, []) => Some (cond_Zopp negative (digits_value 10 ds))
        | _ => None
        end
      else None
  end.

(** [StrUnsignedDecimalLiteral] *)
Definition unsigned_decimal (negative : bool) (l : list Z) : spec_float :=
  if decide (l = code_points "Infinity") then S754_infinity negative
  else
    let '(integer, r) := digits 10 l in
    let '(fraction, r) :=
      match r with
      | 46 :: r' => digits 10 r'
      | _ => ([], r)
      end in
    match integer ++ fraction, exponent_part r with
    | (_ :: _) as ds, Some e =>
        if match l with 46 :: _ => match fraction with [] => true | _ => false end | _ => false end
        then S754_nan
        else round_decimal negative (digits_value 10 ds) (e - Z.of_nat (length fraction))
    | _, _ => S754_nan
    end.

(** [NonDecimalIntegerLiteral] digits after the prefix *)
Definition non_decimal (radix : Z) (l : list Z) : spec_float :=
  match digits radix l with
  | ((_ :: _) as ds, []) => round_integer (digits_value radix ds)
  | _ => S754_nan
  end.

(** [StringToNumber]: the text without the white space around it is empty, a
    [StrDecimalLiteral] or a [NonDecimalIntegerLiteral]; anything else is NaN. *)
Definition StringToNumber (s : string) : spec_float :=
  match trim (code_points s) with
  | [] => S754_zero false
  | 48 :: 98 :: l | 48 :: 66 :: l => non_decimal 2 l
  | 48 :: 111 :: l | 48 :: 79 :: l => non_decimal 8 l
  | 48 :: 120 :: l | 48 :: 88 :: l => non_decimal 16 l
  | 43 :: l => unsigned_decimal false l
  | 45 :: l => unsigned_decimal true l
  | l => unsigned_decimal false l
  end.

Local Close Scope Z_scope.

(** A value that the framework can hand to a constructor parameter decorated
    with [@Attribute]: the text of the attribute, [null] when the host element
    has no such attribute; [undefined] when the class is built by hand with no
    argument. *)
Inductive JSValue : Type :=
| js_undefined
| js_null
| js_string (text : string).

(** [Number(value)]: ToNumber of [undefined] is NaN, of [null] is +0, of a
    string is [StringToNumber]. *)
Definition Number (value : JSValue) : spec_float :=
  match value with
  | js_undefined => S754_nan
  | js_null => S754_zero false
  | js_string text => StringToNumber text
  end.

(** ToBoolean of a number: false for +0, -0 and NaN. *)
Definition number_truthy (x : spec_float) : bool :=
  match x with
  | S754_zero _ | S754_nan => false
  | _ => true
  end.

(** [x === y] on numbers *)
Definition strict_equal (x y : spec_float) : bool := SFeqb x y.

(** ** The toggle *)

Module Toggle.

(** The timepicker that [for] names: the picker of the world. *)
Inductive MatTimepicker : Type := the_timepicker.

Record MatTimepickerToggle : Type := {
  timepicker : option MatTimepicker;
  _disabled : option bool;
  disableRipple : option bool;
  tabIndex : option spec_float
}.

(** [get disabled] *)
Definition disabled (t : MatTimepickerToggle) (w : World) : option bool :=
  match _disabled t, timepicker t with
  | None, Some the_timepicker => disabled_get (picker w)
  | v, _ => Some (truthy v)
  end.

(** [set disabled] *)
Definition disabled_set (value : BooleanInput) (t : MatTimepickerToggle) : MatTimepickerToggle :=
  {| timepicker := timepicker t; _disabled := Some (coerceBooleanProperty value);
     disableRipple := disableRipple t; tabIndex := tabIndex t |}.

(** [constructor(@Attribute('tabindex') defaultTabIndex)]: the inputs are
    not bound yet. *)
Definition new (defaultTabIndex : JSValue) : MatTimepickerToggle :=
  let parsedTabIndex := Number defaultTabIndex in
  {| timepicker := None; _disabled := None; disableRipple := None;
     tabIndex :=
       if number_truthy parsedTabIndex || strict_equal parsedTabIndex (S754_zero false)
       then Some parsedTabIndex
       else None |}.

(** [open(event)], the handler of the host's click; it calls the picker's
    [open]. *)
Definition open (t : MatTimepickerToggle) : Run unit :=
  let* w := world in
  when (defined (timepicker t) && negb (truthy (disabled t w)))
       (open;; emit stopPropagation).

End Toggle.

(** * Predicates and specifications

    What the theorems below are stated with: triples over runs, the
    invariants of the picker, and the wording of the positions and events
    that the claims compare the code with. *)

(** From a world that satisfies [P], the run [m] returns [a] in a world that
    satisfies [Q a], or throws in a world that satisfies [E]. *)
Definition triple {A} (P : World -> Prop) (m : Run A)
    (Q : A -> World -> Prop) (E : World -> Prop) : Prop :=
  forall w, P w ->
    match m w with
    | (w', Return a) => Q a w'
    | (w', Throw _) => E w'
    end.

(** A predicate that a run keeps when it returns, with [E] when it throws. *)
Definition stable {A} (P E : World -> Prop) (m : Run A) : Prop :=
  triple P m (fun _ => P) E.

(** The part of the world that only [registerInput] and the overlay
    operations write. *)
Definition kept (P : list OverlayRef -> option nat -> option MatTimepickerInput -> Prop)
  : World -> Prop :=
  fun w => P (overlays w) (_overlayRef (picker w)) (timepickerInput (picker w)).

(** No overlay of [l] is open, except the one that [current] names. *)
Definition only_open (current : option nat) (l : list OverlayRef) : Prop :=
  forall o r, l !! o = Some r -> disposed r = false -> current = Some o.

(** The invariant: the overlays that are open are named by [_overlayRef]. *)
Definition tracked (w : World) : Prop :=
  only_open (_overlayRef (picker w)) (overlays w).

(** No overlay is open and [_overlayRef] is [null]. *)
Definition closed_down (w : World) : Prop :=
  only_open None (overlays w) /\ _overlayRef (picker w) = None.

Definition no_input_message : string :=
  "Attempted to open an MatTimepicker with no associated input.".

Definition single_input_message : string :=
  "A MatTimepicker can only be associated with a single input.".

(** How often [closedStream] has emitted. *)
Definition closed_emissions (w : World) : nat :=
  length (filter (fun e => e = closedStream_emit) (trace w)).

(** A key pressed with no modifier. *)
Definition plain_key (code : Z) : KeyboardEvent :=
  {| keyCode := code; altKey := false; shiftKey := false; ctrlKey := false; metaKey := false |}.

Definition sample_input : MatTimepickerInput :=
  {| getThemePalette := palette_accent; getConnectedOverlayOrigin := 7 |}.

Abbreviation input_is v := (kept (fun _ _ i => i = v)).

Definition is_registerInput (a : Action) : bool :=
  match a with
  | act_registerInput _ => true
  | _ => false
  end.

(** The events for which the spec says the close stream emits. *)
Definition closing_event (input_associated : bool) (ev : OverlayEvent) : Prop :=
  match ev with
  | backdropClick => True
  | detachment => True
  | keydown event =>
      (keyCode event = ESCAPE
       /\ altKey event = false /\ shiftKey event = false
       /\ ctrlKey event = false /\ metaKey event = false)
      \/ (keyCode event = UP_ARROW /\ altKey event = true /\ input_associated = true)
  end.

Definition opposite_x (x : TimepickerDropdownPositionX) : TimepickerDropdownPositionX :=
  match x with
  | X_start => X_end
  | X_end => X_start
  end.

Definition opposite_edge (e : VerticalEdge) : VerticalEdge :=
  match e with
  | edge_top => edge_bottom
  | edge_bottom => edge_top
  end.

(** The overlay's edge of the preferred position: 'bottom' if [yPosition] is
    'above', else 'top'. *)
Definition preferred_overlayY (y : TimepickerDropdownPositionY) : VerticalEdge :=
  match y with
  | Y_above => edge_bottom
  | Y_below => edge_top
  end.

(** A position on side [x] whose overlay edge is [e], paired with the
    opposite edge of the origin. *)
Definition position_at (x : TimepickerDropdownPositionX) (e : VerticalEdge) : ConnectedPosition :=
  {| originX := x; originY := opposite_edge e; overlayX := x; overlayY := e |}.

(** The four positions in the order of the spec: preferred, y flipped,
    opposite x, opposite x with y flipped. *)
Definition fallback_order (x : TimepickerDropdownPositionX) (y : TimepickerDropdownPositionY)
  : list ConnectedPosition :=
  [ position_at x (preferred_overlayY y);
    position_at x (opposite_edge (preferred_overlayY y));
    position_at (opposite_x x) (preferred_overlayY y);
    position_at (opposite_x x) (opposite_edge (preferred_overlayY y)) ].

Definition sample_toggle : Toggle.MatTimepickerToggle :=
  {| Toggle.timepicker := Some Toggle.the_timepicker; Toggle._disabled := None;
     Toggle.disableRipple := None; Toggle.tabIndex := None |}.

(** The picker is not opened. *)
Definition not_opened (w : World) : Prop := _opened (picker w) = false.

(** [_overlayRef] names an overlay that is open and has its portal attached. *)
Definition ready (w : World) : Prop :=
  exists o r,
    _overlayRef (picker w) = Some o /\ overlays w !! o = Some r
    /\ disposed r = false /\ hasAttached r = true.

(** An opened picker has its overlay. *)
Definition shown (w : World) : Prop := _opened (picker w) = true -> ready w.

(** The world that [_openOverlay] leaves when it returns, from the world
    [w1] that its call of [_destroyOverlay] left and the position strategy. *)
Definition opened_world (w1 : World) (strategy : PositionStrategy) : World :=
  let p := picker w1 in
  let isDialog := bool_decide (_openAs p = dialog) in
  let overlayRef := length (overlays w1) in
  {| picker := set__componentRef (Some overlayRef) (set__overlayRef (Some overlayRef) p);
     overlays :=
       overlays w1 ++
       [ {| getConfig :=
              {| positionStrategy := strategy;
                 hasBackdrop := true;
                 backdropClass :=
                   [ if isDialog then "cdk-overlay-dark-backdrop"
                     else "mat-overlay-transparent-backdrop";
                     _backdropHarnessClass p ];
                 direction := "ltr";
                 scrollStrategy := if isDialog then scroll_block else scroll_injected;
                 panelClass := "mat-timepicker-" +:+ openAs_name (_openAs p) |};
            hasAttached := true;
            instance := Some {| content_timepicker := true; content_color := color p |};
            disposed := false |} ];
     animationDone_subscribers := animationDone_subscribers w1;
     onStable_subscribers :=
       if isDialog then onStable_subscribers w1 else onStable_subscribers w1 ++ [overlayRef];
     trace := trace w1 ++ [overlay_create overlayRef] |}.

(** The strategy that [_getDropdownStrategy] builds for the input. *)
Definition dropdown_strategy (p : MatTimepickerBase) (input : MatTimepickerInput)
  : PositionStrategy :=
  FlexibleConnectedPositionStrategy (getConnectedOverlayOrigin input)
    ".mat-timepicker-content" false 8 true (connectedPositions p).

(** The fields of the picker that only the inputs and [registerInput] write. *)
Definition configuration (p : MatTimepickerBase) :=
  (_disabled p, _openAs p, _color p, xPosition p, yPosition p, timepickerInput p,
   id p, _backdropHarnessClass p).

(** [closedStream] has emitted once for each overlay made, but for the one
    of a picker that is still opened. *)
Definition balanced (w : World) : Prop :=
  closed_emissions w + (if _opened (picker w) then 1 else 0) = length (overlays w).

(** [_componentRef] and [_overlayRef] are set and cleared together. *)
Definition paired (w : World) : Prop :=
  _componentRef (picker w) = _overlayRef (picker w).

(** The overlay is destroyed and the picker is not opened. *)
Definition torn_down (w : World) : Prop := closed_down w /\ not_opened w.

(** [changes['xPosition'] || changes['yPosition']] *)
Definition positionChange (changes : SimpleChanges) : option SimpleChange :=
  match change_xPosition changes with
  | Some c => Some c
  | None => change_yPosition changes
  end.

(** The keys whose default action the overlay always prevents. *)
Definition scrolling_key (code : Z) : bool :=
  Z.eqb code UP_ARROW || Z.eqb code DOWN_ARROW || Z.eqb code LEFT_ARROW
  || Z.eqb code RIGHT_ARROW || Z.eqb code PAGE_UP || Z.eqb code PAGE_DOWN.

(** * Reasoning about runs *)

(** ** Triples with a normal and an exceptional postcondition *)

Lemma triple_ret {A} P (a : A) (Q : A -> World -> Prop) E :
  (forall w, P w -> Q a w) -> triple P (ret a) Q E.
Proof. intros H w Hw. simpl. auto. Qed.

Lemma triple_throw {A} P message (Q : A -> World -> Prop) (E : World -> Prop) :
  (forall w, P w -> E w) -> triple P (throw message) Q E.
Proof. intros H w Hw. simpl. auto. Qed.

Lemma triple_bind {A B} P (m : Run A) (k : A -> Run B) R Q E :
  triple P m R E -> (forall a, triple (R a) (k a) Q E) -> triple P (bind m k) Q E.
Proof.
  intros Hm Hk w Hw. unfold bind. specialize (Hm w Hw).
  destruct (m w) as [w' [a|e]]; [|done]. by apply Hk.
Qed.

Lemma triple_modify P f (Q : unit -> World -> Prop) E :
  (forall w, P w -> Q tt (f w)) -> triple P (modify f) Q E.
Proof. intros H w Hw. simpl. auto. Qed.

Lemma triple_conseq {A} (P P' : World -> Prop) (m : Run A) (Q Q' : A -> World -> Prop)
    (E E' : World -> Prop) :
  triple P' m Q' E' ->
  (forall w, P w -> P' w) -> (forall a w, Q' a w -> Q a w) -> (forall w, E' w -> E w) ->
  triple P m Q E.
Proof.
  intros H HP HQ HE w Hw. specialize (H w (HP w Hw)).
  destruct (m w) as [w' [a|e]]; auto.
Qed.

(** Reading the state binds a value that is the state. *)
Lemma triple_bind_this {B} P (k : MatTimepickerBase -> Run B) Q E :
  (forall p, triple (fun w => P w /\ picker w = p) (k p) Q E) -> triple P (bind this k) Q E.
Proof. intros H w Hw. unfold bind, this. by apply H. Qed.

Lemma triple_bind_world {B} P (k : World -> Run B) Q E :
  (forall w0, triple (fun w => P w /\ w = w0) (k w0) Q E) -> triple P (bind world k) Q E.
Proof. intros H w Hw. unfold bind, world. by apply H. Qed.

Lemma triple_fst {A} P (m : Run A) Q w :
  triple P m (fun _ => Q) Q -> P w -> Q (fst (m w)).
Proof. intros H Hw. specialize (H w Hw). by destruct (m w) as [w' [a|e]]. Qed.

Lemma stable_bind {A B} P E (m : Run A) (k : A -> Run B) :
  stable P E m -> (forall a, stable P E (k a)) -> stable P E (bind m k).
Proof. intros Hm Hk. unfold stable. eapply triple_bind; [exact Hm | exact Hk]. Qed.

Lemma stable_ret {A} P E (a : A) : stable P E (ret a).
Proof. by apply triple_ret. Qed.

Lemma stable_throw {A} (P E : World -> Prop) message :
  (forall w, P w -> E w) -> stable P E (@throw A message).
Proof. intros H. by apply triple_throw. Qed.

Lemma stable_this P E : stable P E this.
Proof. intros w Hw. exact Hw. Qed.

Lemma stable_world P E : stable P E world.
Proof. intros w Hw. exact Hw. Qed.

Lemma stable_modify (P E : World -> Prop) f : (forall w, P w -> P (f w)) -> stable P E (modify f).
Proof. intros H. by apply triple_modify. Qed.

Lemma stable_when P E c m : stable P E m -> stable P E (when c m).
Proof. intros H. destruct c; [exact H | apply stable_ret]. Qed.

Lemma stable_foldr {A} P E (f : A -> Run unit) (l : list A) :
  (forall a, stable P E (f a)) -> stable P E (foldr (fun a k => f a;; k) (ret tt) l).
Proof.
  intros H. induction l as [|a l IH]; simpl; [apply stable_ret|].
  apply stable_bind; [apply H | intros _; exact IH].
Qed.

Create HintDb stable discriminated.

Ltac stable_step :=
  lazymatch goal with
  | |- stable _ _ (bind _ _) => apply stable_bind; [| intros ?]
  | |- stable _ _ (ret _) => apply stable_ret
  | |- stable _ _ (throw _) => apply stable_throw; intros ? ?
  | |- stable _ _ this => apply stable_this
  | |- stable _ _ world => apply stable_world
  | |- stable _ _ (when _ _) => apply stable_when
  | |- stable _ _ (modify _) => apply stable_modify; intros ? ?; simpl in *
  | |- stable _ _ (update _) => apply stable_modify; intros ? ?; simpl in *
  | |- stable _ _ (emit _) => apply stable_modify; intros ? ?; simpl in *
  | |- stable _ _ (if ?c then _ else _) => destruct c
  | |- stable _ _ (match ?x with _ => _ end) => destruct x
  | |- stable _ _ (foldr _ _ _) => apply stable_foldr; intros ?
  end.

Ltac stable_auto := repeat first [ solve [auto with stable] | stable_step ].

(** ** What a run leaves alone *)

Lemma close_kept P E : stable (kept P) E close.
Proof. unfold close, kept. stable_auto; auto. Qed.
#[export] Hint Resolve close_kept : stable.

Lemma deliver_kept P E ev : stable (kept P) E (deliver ev).
Proof. unfold deliver, closeStream_subscriber, keydown_subscriber. stable_auto; auto. Qed.
#[export] Hint Resolve deliver_kept : stable.

Lemma OverlayRef_updatePosition_kept P E overlayRef :
  stable (kept P) E (OverlayRef_updatePosition overlayRef).
Proof. unfold OverlayRef_updatePosition, kept. stable_auto; auto. Qed.
#[export] Hint Resolve OverlayRef_updatePosition_kept : stable.

(** ** At most one overlay is open *)

Lemma only_open_alter f current o (l : list OverlayRef) :
  (forall r, disposed (f r) = false -> disposed r = false) ->
  only_open current l -> only_open current (alter f o l).
Proof.
  intros Hf H o' r Hr Hd.
  destruct (decide (o = o')) as [->|Hne].
  - rewrite list_lookup_alter_eq in Hr.
    destruct (l !! o') as [r0|] eqn:Hl; simplify_eq/=.
    eapply H; eauto.
  - rewrite list_lookup_alter_ne in Hr by done. eapply H; eauto.
Qed.

Lemma only_open_dispose o (l : list OverlayRef) :
  only_open (Some o) l -> only_open None (alter set_disposed o l).
Proof.
  intros H o' r Hr Hd.
  destruct (decide (o = o')) as [->|Hne].
  - rewrite list_lookup_alter_eq in Hr.
    destruct (l !! o') as [r0|] eqn:Hl; simplify_eq/=.
  - rewrite list_lookup_alter_ne in Hr by done.
    specialize (H o' r Hr Hd). congruence.
Qed.

Lemma only_open_None current (l : list OverlayRef) : only_open None l -> only_open current l.
Proof. intros H o r Hr Hd. by specialize (H o r Hr Hd). Qed.

Lemma only_open_create (l : list OverlayRef) r :
  only_open None l -> only_open (Some (length l)) (l ++ [r]).
Proof.
  intros H o r' Hr Hd.
  destruct (decide (o < length l)) as [Hlt|Hge].
  - rewrite lookup_app_l in Hr by done. by specialize (H o r' Hr Hd).
  - apply lookup_lt_Some in Hr as Hlen. rewrite length_app in Hlen. simpl in Hlen.
    f_equal. lia.
Qed.

Lemma OverlayRef_dispose_closes E o :
  triple (fun w => only_open (Some o) (overlays w)) (OverlayRef_dispose o)
         (fun _ w => only_open None (overlays w)) E.
Proof.
  unfold OverlayRef_dispose. apply triple_bind_world. intros w0.
  destruct (overlays w0 !! o) as [r|] eqn:Hr.
  - destruct (disposed r) eqn:Hd.
    + apply triple_ret. intros w [H ->] o' r' Hr' Hd'.
      specialize (H o' r' Hr' Hd'). congruence.
    + eapply triple_bind with (R := fun _ w => kept (fun l _ _ => only_open None l) w).
      * apply triple_modify. intros w [H ->]. by apply only_open_dispose.
      * intros _. change (stable (kept (fun l _ _ => only_open None l)) E
          (emit (overlay_dispose o);; when (hasAttached r) (deliver detachment))).
        stable_auto; auto.
  - apply triple_ret. intros w [H ->] o' r' Hr' Hd'.
    specialize (H o' r' Hr' Hd'). congruence.
Qed.

Lemma _destroyOverlay_closes E : triple tracked _destroyOverlay (fun _ => closed_down) E.
Proof.
  unfold _destroyOverlay. apply triple_bind_this. intros p.
  destruct (_overlayRef p) as [o|] eqn:Ho.
  - eapply triple_bind with (R := fun _ w => only_open None (overlays w)).
    + eapply triple_conseq; [apply (OverlayRef_dispose_closes E o) | | auto | auto].
      intros w [H <-]. unfold tracked in H. by rewrite Ho in H.
    + intros _. apply triple_modify. intros w H. by split.
  - apply triple_ret. intros w [H <-]. unfold tracked in H. rewrite Ho in H. by split.
Qed.

Lemma closed_down_tracked w : closed_down w -> tracked w.
Proof. intros [H Ho]. unfold tracked. by rewrite Ho. Qed.

Lemma tracked_alter f o w :
  (forall r, disposed (f r) = false -> disposed r = false) ->
  tracked w -> tracked (with_overlays (alter f o) w).
Proof. intros Hf H. unfold tracked. simpl. by apply only_open_alter. Qed.

Ltac as_stable :=
  lazymatch goal with
  | |- triple ?P ?m (fun _ => ?P) ?E => change (stable P E m)
  end.

Lemma _openOverlay_tracked : triple tracked _openOverlay (fun _ => tracked) tracked.
Proof.
  unfold _openOverlay.
  eapply triple_bind; [apply (_destroyOverlay_closes tracked)|]. intros ?; cbv beta.
  apply triple_bind_this. intros p.
  eapply triple_bind with (R := fun _ => closed_down).
  - destruct (bool_decide (_openAs p = dialog)).
    + apply triple_ret. by intros w [H _].
    + unfold _getDropdownStrategy. apply triple_bind_this. intros p'.
      destruct (timepickerInput p').
      * apply triple_ret. by intros w [[H _] _].
      * apply triple_throw. intros w [[H _] _]. by apply closed_down_tracked.
  - intros strategy.
    eapply triple_bind with
      (R := fun o w => only_open (Some o) (overlays w)).
    + unfold Overlay_create. apply triple_bind_world. intros w0.
      eapply triple_bind with
        (R := fun _ w => only_open (Some (length (overlays w0))) (overlays w)).
      * apply triple_modify. intros w [[H _] Hw]. subst w0. simpl. by apply only_open_create.
      * intros _. eapply triple_bind with
        (R := fun _ w => only_open (Some (length (overlays w0))) (overlays w)).
        -- apply triple_modify. by intros w H.
        -- intros _. apply triple_ret. by intros w H.
    + intros o.
      eapply triple_bind with (R := fun _ => tracked).
      * apply triple_modify. intros w H. exact H.
      * intros _. as_stable. unfold OverlayRef_attach, _forwardContentValues.
        stable_auto; auto using tracked_alter.
Qed.

Lemma _openOverlay_stable : stable tracked tracked _openOverlay.
Proof. exact _openOverlay_tracked. Qed.
#[export] Hint Resolve _openOverlay_stable : stable.

Lemma _destroyOverlay_stable E : stable tracked E _destroyOverlay.
Proof.
  eapply triple_conseq; [apply (_destroyOverlay_closes E) | auto | | auto].
  intros ? w. apply closed_down_tracked.
Qed.
#[export] Hint Resolve _destroyOverlay_stable : stable.

Lemma tracked_kept :
  tracked = kept (fun l current _ => only_open current l).
Proof. reflexivity. Qed.

Lemma close_stable E : stable tracked E close.
Proof. rewrite tracked_kept. apply close_kept. Qed.
#[export] Hint Resolve close_stable : stable.

Lemma deliver_stable E ev : stable tracked E (deliver ev).
Proof. rewrite tracked_kept. apply deliver_kept. Qed.
#[export] Hint Resolve deliver_stable : stable.

Lemma OverlayRef_updatePosition_stable E o : stable tracked E (OverlayRef_updatePosition o).
Proof. rewrite tracked_kept. apply OverlayRef_updatePosition_kept. Qed.
#[export] Hint Resolve OverlayRef_updatePosition_stable : stable.

Lemma open_stable : stable tracked tracked open.
Proof. unfold open. stable_auto; auto. Qed.
#[export] Hint Resolve open_stable : stable.

Lemma perform_stable a : stable tracked tracked (perform a).
Proof.
  destruct a; simpl;
    unfold disabled_set, opened_set, openAs_set, ngOnChanges, ngOnDestroy, registerInput,
      overlayEvent, animationDone, onStable;
    stable_auto; auto using tracked_alter.
Qed.

Lemma step_tracked a w : tracked w -> tracked (step a w).
Proof. intros H. unfold step. eapply triple_fst; [apply perform_stable | exact H]. Qed.

Lemma after_tracked history w : tracked w -> tracked (after history w).
Proof.
  revert w. induction history as [|a history IH]; intros w H; simpl; [done|].
  apply IH. by apply step_tracked.
Qed.

Lemma World_new_tracked uid : tracked (World_new uid).
Proof. intros o r Hr. simpl in Hr. by rewrite lookup_nil in Hr. Qed.

Lemma only_open_None_filter (l : list OverlayRef) :
  only_open None l -> filter (fun r => disposed r = false) l = [].
Proof.
  induction l as [|r l IH]; intros H; [done|].
  rewrite filter_cons. destruct (decide (disposed r = false)) as [Hd|Hd].
  - by specialize (H 0 r eq_refl Hd).
  - apply IH. intros o r' Hr' Hd'. by specialize (H (S o) r' Hr' Hd').
Qed.

Lemma only_open_count current (l : list OverlayRef) :
  only_open current l -> length (filter (fun r => disposed r = false) l) <= 1.
Proof.
  revert current. induction l as [|r l IH]; intros current H; simpl; [lia|].
  rewrite filter_cons. destruct (decide (disposed r = false)) as [Hd|Hd].
  - pose proof (H 0 r eq_refl Hd) as Hc.
    rewrite only_open_None_filter; [simpl; lia|].
    intros o r' Hr' Hd'. specialize (H (S o) r' Hr' Hd'). congruence.
  - apply (IH (match current with Some (S n) => Some n | _ => None end)).
    intros o r' Hr' Hd'. specialize (H (S o) r' Hr' Hd'). by rewrite H.
Qed.

(** * The claims *)

Lemma open_guard (w : World) :
  _opened (picker w) = true \/ truthy (disabled_get (picker w)) = true ->
  open w = (w, Return tt).
Proof.
  intros H. unfold open, bind, this. simpl.
  destruct H as [-> | H]; [done|].
  rewrite H. by rewrite orb_true_r.
Qed.

(** C7: on a picker that is opened or disabled, [open()] returns without
    throwing and leaves the whole world as it was: the picker (its [_opened],
    its [timepickerInput], every other field), the overlays (none is
    created), the subscriptions and the trace.  No input need be associated. *)
Theorem open_is_noop_when_opened_or_disabled (w : World) :
  _opened (picker w) = true \/ truthy (disabled_get (picker w)) = true ->
  open w = (w, Return tt).
Proof. apply open_guard. Qed.

Lemma open_is_noop_when_opened_or_disabled_witness :
  let w := after [act_disabled (BI_boolean true)] (World_new 0) in
  timepickerInput (picker w) = None /\ open w = (w, Return tt).
Proof.
  split; [reflexivity|].
  apply open_is_noop_when_opened_or_disabled. right. reflexivity.
Defined.

(** C8: [close()] on a picker that is not opened changes nothing and emits
    nothing; on an opened picker it returns with [_opened] false and exactly
    one more emission of [closedStream], and a second [close()] right after
    changes nothing and emits nothing. *)
Theorem close_emits_once (w : World) :
  (_opened (picker w) = false -> close w = (w, Return tt))
  /\ (_opened (picker w) = true ->
      let w' := fst (close w) in
      snd (close w) = Return tt
      /\ _opened (picker w') = false
      /\ closed_emissions w' = S (closed_emissions w)
      /\ close w' = (w', Return tt))
  /\ close (fst (close w)) = (fst (close w), Return tt).
Proof.
  assert (forall v, _opened (picker v) = false -> close v = (v, Return tt)) as Hno.
  { intros v H. unfold close, bind, this. simpl. by rewrite H. }
  assert (_opened (picker w) = true ->
      let w' := fst (close w) in
      snd (close w) = Return tt
      /\ _opened (picker w') = false
      /\ closed_emissions w' = S (closed_emissions w)
      /\ close w' = (w', Return tt)) as Hyes; [intros H|].
  2: { split; [apply Hno|]. split; [exact Hyes|].
       destruct (_opened (picker w)) eqn:H.
       - by apply Hyes.
       - rewrite (Hno w H). simpl. by apply Hno. }
  - unfold close, bind, this, when, modify, emit, update. simpl. rewrite H. simpl.
    destruct (_componentRef (picker w)) as [c|]; simpl; rewrite H; simpl;
      unfold closed_emissions; simpl; rewrite !filter_app, !length_app; simpl;
      repeat split; try lia.
Qed.

Lemma close_emits_once_witness :
  let w := after [act_registerInput sample_input; act_open] (World_new 0) in
  _opened (picker w) = true
  /\ closed_emissions (fst (close w)) = S (closed_emissions w)
  /\ close (fst (close w)) = (fst (close w), Return tt).
Proof.
  intros w.
  assert (_opened (picker w) = true) as Ho by (vm_compute; reflexivity).
  destruct (close_emits_once w) as (_ & H & _).
  destruct (H Ho) as (_ & _ & He & Hc).
  exact (conj Ho (conj He Hc)).
Defined.

(** C1, as the code has it: on a picker with no associated input, [open()]
    leaves the world as it was, so the picker does not become opened and no
    overlay is made; it throws the error exactly when the picker is neither
    opened nor disabled, and returns normally otherwise. *)
Theorem open_without_input (w : World) :
  timepickerInput (picker w) = None ->
  fst (open w) = w
  /\ (_opened (picker w) = false -> truthy (disabled_get (picker w)) = false ->
      snd (open w) = Throw no_input_message)
  /\ (_opened (picker w) = true \/ truthy (disabled_get (picker w)) = true ->
      snd (open w) = Return tt).
Proof.
  intros Hin. unfold open, bind, this. simpl. rewrite Hin. simpl.
  destruct (_opened (picker w)), (truthy (disabled_get (picker w))); simpl;
    repeat split; try done; intros [?|?]; done.
Qed.

Lemma open_without_input_witness :
  let w := World_new 0 in
  timepickerInput (picker w) = None
  /\ fst (open w) = w /\ snd (open w) = Throw no_input_message.
Proof.
  split; [reflexivity|].
  destruct (open_without_input (World_new 0) eq_refl) as (H1 & H2 & _).
  split; [exact H1 | exact (H2 eq_refl eq_refl)].
Defined.

(** C1 fails as stated: a disabled picker that has no associated input
    returns from [open()] without throwing. *)
Lemma open_without_input_need_not_throw :
  let w := after [act_disabled (BI_string "")] (World_new 1) in
  timepickerInput (picker w) = None /\ open w = (w, Return tt).
Proof. split; reflexivity. Qed.

(** ** The associated input is written by [registerInput] only *)

Lemma OverlayRef_dispose_input v E o : stable (input_is v) E (OverlayRef_dispose o).
Proof. unfold OverlayRef_dispose. stable_auto; unfold kept in *; auto. Qed.
#[export] Hint Resolve OverlayRef_dispose_input : stable.

Lemma _destroyOverlay_input v E : stable (input_is v) E _destroyOverlay.
Proof. unfold _destroyOverlay. stable_auto; auto. Qed.
#[export] Hint Resolve _destroyOverlay_input : stable.

Lemma _openOverlay_input v : stable (input_is v) (input_is v) _openOverlay.
Proof.
  unfold _openOverlay, _getDropdownStrategy, Overlay_create, OverlayRef_attach,
    _forwardContentValues.
  stable_auto; auto.
Qed.
#[export] Hint Resolve _openOverlay_input : stable.

Lemma open_input v : stable (input_is v) (input_is v) open.
Proof. unfold open. stable_auto; auto. Qed.
#[export] Hint Resolve open_input : stable.

Lemma registerInput_fresh input w :
  timepickerInput (picker w) = None ->
  registerInput input w = (with_picker (set_timepickerInput (Some input)) w, Return tt).
Proof. intros H. unfold registerInput, bind, this. simpl. by rewrite H. Qed.

Lemma registerInput_taken input w :
  defined (timepickerInput (picker w)) = true ->
  registerInput input w = (w, Throw single_input_message).
Proof. intros H. unfold registerInput, bind, this. simpl. by rewrite H. Qed.

Lemma perform_input a v :
  is_registerInput a = false \/ defined v = true ->
  stable (input_is v) (input_is v) (perform a).
Proof.
  intros Ha.
  destruct a; simpl;
    try (unfold disabled_set, opened_set, openAs_set, ngOnChanges, ngOnDestroy,
           overlayEvent, animationDone, onStable;
         stable_auto; unfold kept in *; simpl in *; auto; fail).
  destruct Ha as [Ha|Hv]; [done|].
  intros w Hw. rewrite registerInput_taken; [done|].
  unfold kept in Hw. by rewrite Hw.
Qed.

Lemma after_input history v w :
  forallb (fun a => negb (is_registerInput a)) history = true \/ defined v = true ->
  input_is v w -> input_is v (after history w).
Proof.
  revert w. induction history as [|a history IH]; intros w Hh Hw; simpl; [done|].
  apply IH.
  - destruct Hh as [Hh|Hv]; [|by right]. simpl in Hh. apply andb_true_iff in Hh. left. tauto.
  - unfold step. eapply triple_fst; [|exact Hw]. apply perform_input.
    destruct Hh as [Hh|Hv]; [|by right]. simpl in Hh. apply andb_true_iff in Hh.
    left. destruct Hh as [Hh _]. by destruct (is_registerInput a).
Qed.

(** C2: on a new picker, whatever happened before short of a registration,
    the first [registerInput(input)] returns and stores [input] in
    [timepickerInput]; whatever happens afterwards, every later
    [registerInput] throws the error and leaves the world, and so the
    registered input, as it was. *)
Theorem registerInput_first_then_rejected
    (uid : nat) (before : list Action) (input : MatTimepickerInput)
    (afterwards : list Action) (later : MatTimepickerInput) :
  forallb (fun a => negb (is_registerInput a)) before = true ->
  let w1 := after before (World_new uid) in
  let w2 := fst (registerInput input w1) in
  let w3 := after afterwards w2 in
  registerInput input w1 = (with_picker (set_timepickerInput (Some input)) w1, Return tt)
  /\ timepickerInput (picker w2) = Some input
  /\ registerInput later w3 = (w3, Throw single_input_message)
  /\ timepickerInput (picker w3) = Some input.
Proof.
  intros Hb w1 w2 w3.
  assert (timepickerInput (picker w1) = None) as H1.
  { apply (after_input before None (World_new uid)); [by left | reflexivity]. }
  assert (registerInput input w1
          = (with_picker (set_timepickerInput (Some input)) w1, Return tt)) as Hr.
  { by apply registerInput_fresh. }
  assert (timepickerInput (picker w2) = Some input) as H2.
  { unfold w2. by rewrite Hr. }
  assert (timepickerInput (picker w3) = Some input) as H3.
  { apply (after_input afterwards (Some input) w2); [by right | exact H2]. }
  repeat split; try done.
  apply registerInput_taken. by rewrite H3.
Qed.

Lemma registerInput_first_then_rejected_witness :
  let other := {| getThemePalette := palette_warn; getConnectedOverlayOrigin := 9 |} in
  let w2 := fst (registerInput sample_input
                   (after [act_disabled (BI_boolean false)] (World_new 0))) in
  let w3 := after [act_open; act_registerInput other; act_close] w2 in
  timepickerInput (picker w2) = Some sample_input
  /\ registerInput other w3 = (w3, Throw single_input_message)
  /\ timepickerInput (picker w3) = Some sample_input.
Proof.
  intros other.
  destruct (registerInput_first_then_rejected 0 [act_disabled (BI_boolean false)]
              sample_input [act_open; act_registerInput other; act_close] other eq_refl)
    as (_ & H2 & H3 & H4).
  exact (conj H2 (conj H3 H4)).
Defined.

(** ** The close stream *)

Lemma _getCloseStream_closing_event p ev :
  _getCloseStream p ev = true <-> closing_event (defined (timepickerInput p)) ev.
Proof.
  destruct ev as [| |event]; simpl; [done|done|].
  rewrite orb_true_iff, !andb_true_iff, negb_true_iff, !orb_false_iff, !Z.eqb_eq.
  rewrite orb_false_r. tauto.
Qed.

Lemma deliver_emitting ev w :
  _getCloseStream (picker w) ev = true ->
  picker (fst (deliver ev w)) = picker (fst (close w))
  /\ closed_emissions (fst (deliver ev w)) = closed_emissions (fst (close w))
  /\ _opened (picker (fst (deliver ev w))) = false.
Proof.
  intros H.
  unfold deliver, closeStream_subscriber, keydown_subscriber, close, bind, this, when,
    emit, update, modify, ret.
  simpl. rewrite H. unfold closed_emissions.
  destruct ev as [| |event]; simpl;
    destruct (_opened (picker w)) eqn:Ho; simpl;
    try destruct (_componentRef (picker w)); simpl; rewrite ?Ho; simpl;
    repeat match goal with |- context [if ?c then _ else _] => destruct c; simpl end;
    rewrite ?filter_app, ?length_app; simpl; repeat split; try done; try lia.
Qed.

Lemma deliver_silent ev w :
  _getCloseStream (picker w) ev = false ->
  picker (fst (deliver ev w)) = picker w
  /\ closed_emissions (fst (deliver ev w)) = closed_emissions w.
Proof.
  intros H.
  unfold deliver, closeStream_subscriber, keydown_subscriber, bind, this, when,
    emit, update, modify, ret.
  simpl. rewrite H. unfold closed_emissions.
  destruct ev as [| |event]; simpl; try done.
  repeat match goal with |- context [if ?c then _ else _] => destruct c; simpl end;
    rewrite ?filter_app, ?length_app; simpl; split; try done; lia.
Qed.

(** C3: the close stream emits for a backdrop click, for a detachment, for a
    key press of Escape with none of the four modifiers, and for a key press
    of Up Arrow with Alt when an input is associated, and for nothing else.
    An event for which it emits runs [close()]: the picker is left as
    [close()] leaves it, not opened, with the emissions of [closedStream] that
    [close()] makes; an event for which it does not emit leaves the picker
    and the emissions alone.  So Escape without modifiers closes. *)
Theorem close_stream_events (w : World) (ev : OverlayEvent) :
  (_getCloseStream (picker w) ev = true
     <-> closing_event (defined (timepickerInput (picker w))) ev)
  /\ (_getCloseStream (picker w) ev = true ->
      picker (fst (deliver ev w)) = picker (fst (close w))
      /\ closed_emissions (fst (deliver ev w)) = closed_emissions (fst (close w))
      /\ _opened (picker (fst (deliver ev w))) = false)
  /\ (_getCloseStream (picker w) ev = false ->
      picker (fst (deliver ev w)) = picker w
      /\ closed_emissions (fst (deliver ev w)) = closed_emissions w)
  /\ _opened (picker (fst (deliver (keydown (plain_key ESCAPE)) w))) = false.
Proof.
  split; [apply _getCloseStream_closing_event|].
  split; [apply deliver_emitting|].
  split; [apply deliver_silent|].
  by apply deliver_emitting.
Qed.

(** ** The fallback positions, as the spec words them *)

Lemma connectedPositions_fallback_order p :
  connectedPositions p = fallback_order (xPosition p) (yPosition p).
Proof. unfold connectedPositions. by destruct (xPosition p), (yPosition p). Qed.

(** C4: for each [xPosition] and [yPosition], [_setConnectedPositions] gives
    the strategy exactly the four positions of the fallback order, preferred
    first, then the y pairing flipped, then the opposite x with the preferred
    pairing, then the opposite x flipped; [originX] equals [overlayX] in each;
    and the strategy that [_getDropdownStrategy] returns for a picker with an
    input carries them. *)
Theorem dropdown_positions_fallback_order (w : World) (input : MatTimepickerInput) :
  timepickerInput (picker w) = Some input ->
  let p := picker w in
  connectedPositions p = fallback_order (xPosition p) (yPosition p)
  /\ length (connectedPositions p) = 4
  /\ Forall (fun c => originX c = overlayX c) (connectedPositions p)
  /\ (forall o t f m l old,
        _setConnectedPositions p (FlexibleConnectedPositionStrategy o t f m l old)
        = FlexibleConnectedPositionStrategy o t f m l
            (fallback_order (xPosition p) (yPosition p)))
  /\ _getDropdownStrategy w
     = (w, Return (FlexibleConnectedPositionStrategy (getConnectedOverlayOrigin input)
                     ".mat-timepicker-content" false 8 true
                     (fallback_order (xPosition p) (yPosition p)))).
Proof.
  intros Hin p. subst p.
  pose proof (connectedPositions_fallback_order (picker w)) as Hc.
  split; [exact Hc|]. split; [by rewrite Hc|].
  split; [rewrite Hc; repeat constructor|].
  split; [intros; simpl; by rewrite Hc|].
  unfold _getDropdownStrategy, bind, this, ret. simpl. rewrite Hin.
  simpl. by rewrite Hc.
Qed.

Lemma dropdown_positions_fallback_order_witness :
  let w := after [act_xPosition X_end; act_yPosition Y_above;
                  act_registerInput sample_input] (World_new 0) in
  connectedPositions (picker w)
  = [ {| originX := X_end; originY := edge_top; overlayX := X_end; overlayY := edge_bottom |};
      {| originX := X_end; originY := edge_bottom; overlayX := X_end; overlayY := edge_top |};
      {| originX := X_start; originY := edge_top; overlayX := X_start; overlayY := edge_bottom |};
      {| originX := X_start; originY := edge_bottom; overlayX := X_start; overlayY := edge_top |} ].
Proof.
  intros w.
  destruct (dropdown_positions_fallback_order w sample_input eq_refl) as (H & _).
  exact H.
Defined.

(** ** The toggle's click *)

(** C5, as the code has it: when no timepicker is assigned or the toggle is
    disabled, a click changes nothing; otherwise the toggle runs the picker's
    [open()], and when that returns it stops the propagation of the event,
    when that throws the error leaves the handler and it does not.  The
    toggle's [disabled] is the assigned picker's while its own was never
    set. *)
Theorem toggle_click (t : Toggle.MatTimepickerToggle) (w : World) :
  (Toggle._disabled t = None -> Toggle.timepicker t = Some Toggle.the_timepicker ->
   Toggle.disabled t w = disabled_get (picker w))
  /\ (Toggle.timepicker t = None \/ truthy (Toggle.disabled t w) = true ->
      Toggle.open t w = (w, Return tt))
  /\ (Toggle.timepicker t = Some Toggle.the_timepicker ->
      truthy (Toggle.disabled t w) = false ->
      (snd (open w) = Return tt ->
       Toggle.open t w
       = (with_trace (fun tr => tr ++ [stopPropagation]) (fst (open w)), Return tt))
      /\ (forall message, snd (open w) = Throw message ->
          Toggle.open t w = (fst (open w), Throw message))).
Proof.
  split; [|split].
  - intros Hd Ht. unfold Toggle.disabled. by rewrite Hd, Ht.
  - intros H. unfold Toggle.open, bind, world, when. simpl.
    destruct H as [-> | ->]; [done|]. simpl. by rewrite andb_false_r.
  - intros Ht Hd. unfold Toggle.open, bind, world, when. simpl.
    rewrite Ht, Hd. simpl.
    destruct (open w) as [w' [[]|e]]; simpl; split; try done.
    intros message [= ->]. done.
Qed.

Lemma toggle_click_witness :
  let w := after [act_registerInput sample_input] (World_new 0) in
  Toggle.open sample_toggle w
  = (with_trace (fun tr => tr ++ [stopPropagation]) (fst (open w)), Return tt).
Proof.
  intros w.
  destruct (toggle_click sample_toggle w) as (_ & _ & H).
  destruct (H eq_refl eq_refl) as [Hr _].
  exact (Hr eq_refl).
Defined.

(** C5 fails as stated: the toggle is enabled and has a timepicker, the
    picker has no input, [open()] throws and the propagation is not stopped. *)
Lemma toggle_click_may_throw :
  let w := World_new 0 in
  truthy (Toggle.disabled sample_toggle w) = false
  /\ Toggle.open sample_toggle w = (w, Throw no_input_message)
  /\ stopPropagation ∉ trace (fst (Toggle.open sample_toggle w)).
Proof.
  split; [reflexivity|]. split; [reflexivity|].
  simpl. apply not_elem_of_nil.
Qed.

(** ** One overlay per picker *)

Lemma alter_last {A} (f : A -> A) (l : list A) (x : A) :
  alter f (length l) (l ++ [x]) = l ++ [f x].
Proof. by rewrite alter_app_r_alt, Nat.sub_diag by lia. Qed.

Lemma OverlayRef_dispose_returns o : stable (fun _ => True) (fun _ => False) (OverlayRef_dispose o).
Proof.
  unfold OverlayRef_dispose, deliver, closeStream_subscriber, keydown_subscriber, close.
  stable_auto; auto.
Qed.

Lemma _destroyOverlay_returns w : snd (_destroyOverlay w) = Return tt.
Proof.
  assert (stable (fun _ => True) (fun _ => False) _destroyOverlay) as H.
  { unfold _destroyOverlay. stable_auto; auto using OverlayRef_dispose_returns. }
  specialize (H w I). by destruct (_destroyOverlay w) as [w' [[]|e]].
Qed.

Lemma _openOverlay_creates w :
  closed_down (fst (_destroyOverlay w)) ->
  snd (_openOverlay w) = Return tt ->
  exists r,
    overlays (fst (_openOverlay w)) = overlays (fst (_destroyOverlay w)) ++ [r]
    /\ disposed r = false
    /\ _overlayRef (picker (fst (_openOverlay w)))
       = Some (length (overlays (fst (_destroyOverlay w))))
    /\ open_overlays (fst (_openOverlay w)) = [r].
Proof.
  intros [Hclosed _] Hret.
  pose proof (_destroyOverlay_returns w) as Hd.
  unfold _openOverlay, bind in *.
  destruct (_destroyOverlay w) as [w1 [[]|e]]; [clear Hd | done]. simpl in Hclosed.
  unfold this, _getDropdownStrategy, Overlay_create, OverlayRef_attach, _forwardContentValues,
    bind, this, world, when, update, modify, emit, ret, throw in *.
  simpl in *.
  destruct (bool_decide (_openAs (picker w1) = dialog)); simpl in *.
  - unfold open_overlays. simpl. rewrite !alter_last.
    eexists. split; [reflexivity|]. split; [reflexivity|].
    split; [reflexivity|].
    rewrite filter_app, only_open_None_filter by done. reflexivity.
  - destruct (timepickerInput (picker w1)); simpl in *; [|done].
    unfold open_overlays. simpl. rewrite !alter_last.
    eexists. split; [reflexivity|]. split; [reflexivity|].
    split; [reflexivity|].
    rewrite filter_app, only_open_None_filter by done. reflexivity.
Qed.

(** C6: after any history of a picker, at most one of its overlays is open.
    [_openOverlay] first runs [_destroyOverlay], after which no overlay is
    open and [_overlayRef] is [null]; when it returns it has added one
    overlay to those, which is then the only open one and the one that
    [_overlayRef] names.  [open()] on an opened picker changes nothing, so it
    creates no second overlay. *)
Theorem one_open_overlay (uid : nat) (history : list Action) :
  let w := after history (World_new uid) in
  length (open_overlays w) <= 1
  /\ closed_down (fst (_destroyOverlay w))
  /\ open_overlays (fst (_destroyOverlay w)) = []
  /\ (snd (_openOverlay w) = Return tt ->
      exists r,
        overlays (fst (_openOverlay w)) = overlays (fst (_destroyOverlay w)) ++ [r]
        /\ disposed r = false
        /\ _overlayRef (picker (fst (_openOverlay w)))
           = Some (length (overlays (fst (_destroyOverlay w))))
        /\ open_overlays (fst (_openOverlay w)) = [r])
  /\ (_opened (picker w) = true ->
      open w = (w, Return tt) /\ overlays (fst (open w)) = overlays w).
Proof.
  intros w.
  assert (tracked w) as Hw by apply after_tracked, World_new_tracked.
  assert (closed_down (fst (_destroyOverlay w))) as Hc.
  { pose proof (_destroyOverlay_closes closed_down w Hw) as H.
    by destruct (_destroyOverlay w) as [w' [[]|e]]. }
  split; [by eapply only_open_count|].
  split; [exact Hc|].
  split; [apply only_open_None_filter, Hc|].
  split; [by apply _openOverlay_creates|].
  intros Ho. rewrite open_guard by (by left). done.
Qed.

(** ** The toggle's tab index *)

Lemma strict_equal_zero_cases (n : spec_float) :
  strict_equal n (S754_zero false) = match n with S754_zero _ => true | _ => false end.
Proof. by destruct n as [[]|[]| |[] m e]. Qed.

(** C9, as the code has it: the toggle's [tabIndex] is [Number] of the
    constructor's argument when that is a truthy number or equals 0, and
    [null] otherwise, which is exactly when it is NaN: for a text with no
    numeric reading and for [undefined].  The text '0' gives 0.  A missing
    attribute, which arrives as [null], converts to 0 and gives 0, not
    [null]. *)
Theorem tabIndex_of_attribute (defaultTabIndex : JSValue) :
  let parsedTabIndex := Number defaultTabIndex in
  (number_truthy parsedTabIndex = true
   \/ strict_equal parsedTabIndex (S754_zero false) = true ->
   Toggle.tabIndex (Toggle.new defaultTabIndex) = Some parsedTabIndex)
  /\ (number_truthy parsedTabIndex = false ->
      strict_equal parsedTabIndex (S754_zero false) = false ->
      Toggle.tabIndex (Toggle.new defaultTabIndex) = None)
  /\ (Toggle.tabIndex (Toggle.new defaultTabIndex) = None <-> parsedTabIndex = S754_nan)
  /\ Toggle.tabIndex (Toggle.new (js_string "0")) = Some (S754_zero false)
  /\ Toggle.tabIndex (Toggle.new (js_string "tab")) = None
  /\ Toggle.tabIndex (Toggle.new js_undefined) = None
  /\ Toggle.tabIndex (Toggle.new js_null) = Some (S754_zero false).
Proof.
  intros n. unfold Toggle.new. simpl. fold n.
  rewrite strict_equal_zero_cases.
  split; [|split; [|split]].
  - intros [H|H]; rewrite H; [done|]. by rewrite orb_true_r.
  - by intros -> ->.
  - destruct n as [[]|[]| |[] m e]; simpl; split; done.
  - repeat split; vm_compute; reflexivity.
Qed.

(** C9 fails as stated for a missing attribute: the framework passes [null],
    and the tab index is 0. *)
Lemma tabIndex_of_missing_attribute :
  Toggle.tabIndex (Toggle.new js_null) = Some (S754_zero false).
Proof. reflexivity. Qed.

(** * Further properties of the code *)

(** ** An opened picker has its overlay *)

Lemma not_opened_shown w : not_opened w -> shown w.
Proof. unfold not_opened, shown. congruence. Qed.

Lemma close_not_opened E : triple (fun _ => True) close (fun _ => not_opened) E.
Proof.
  intros w _. unfold close, bind, this, when, modify, emit, update, not_opened. simpl.
  destruct (_opened (picker w)) eqn:Ho; simpl; [|done].
  destruct (_componentRef (picker w)); simpl; rewrite Ho; done.
Qed.

Lemma close_keeps_not_opened E : stable not_opened E close.
Proof.
  eapply triple_conseq; [apply (close_not_opened E) | done | auto | auto].
Qed.
#[export] Hint Resolve close_keeps_not_opened : stable.

Lemma deliver_keeps_not_opened E ev : stable not_opened E (deliver ev).
Proof. unfold deliver, closeStream_subscriber, keydown_subscriber. stable_auto; auto. Qed.
#[export] Hint Resolve deliver_keeps_not_opened : stable.

Lemma deliver_detachment_not_opened E :
  triple (fun _ => True) (deliver detachment) (fun _ => not_opened) E.
Proof.
  unfold deliver. apply triple_bind_this. intros p. simpl.
  unfold closeStream_subscriber, when.
  eapply triple_bind with (R := fun _ => not_opened).
  - eapply triple_bind with (R := fun _ _ => True); [by apply triple_ret|].
    intros ?. eapply triple_conseq; [apply (close_not_opened E) | done | auto | auto].
  - intros ?. by apply triple_ret.
Qed.

Lemma OverlayRef_dispose_keeps_not_opened E o : stable not_opened E (OverlayRef_dispose o).
Proof. unfold OverlayRef_dispose. stable_auto; auto. Qed.
#[export] Hint Resolve OverlayRef_dispose_keeps_not_opened : stable.

Lemma OverlayRef_dispose_not_opened E o :
  triple (fun w => shown w /\ _overlayRef (picker w) = Some o) (OverlayRef_dispose o)
         (fun _ => not_opened) E.
Proof.
  unfold OverlayRef_dispose. apply triple_bind_world. intros w0.
  assert (forall w, (shown w /\ _overlayRef (picker w) = Some o) /\ w = w0 ->
            ~ (exists r, overlays w0 !! o = Some r /\ disposed r = false /\ hasAttached r = true) ->
            not_opened w) as Hno.
  { intros w [[Hs Ho] ->] Hn. unfold not_opened.
    destruct (_opened (picker w0)) eqn:Hop; [|done].
    destruct (Hs Hop) as (o' & r & Ho' & Hr & Hd & Ha).
    exfalso. apply Hn. exists r. by simplify_eq. }
  destruct (overlays w0 !! o) as [r|] eqn:Hr.
  - destruct (disposed r) eqn:Hd.
    + apply triple_ret. intros w H. apply Hno; [done|].
      intros (r' & ? & ? & ?). congruence.
    + destruct (hasAttached r) eqn:Ha; simpl.
      * eapply triple_bind with (R := fun _ _ => True); [by apply triple_modify|].
        intros ?. eapply triple_bind with (R := fun _ _ => True); [by apply triple_modify|].
        intros ?. apply deliver_detachment_not_opened.
      * eapply triple_conseq with (P' := not_opened) (Q' := fun _ => not_opened) (E' := E);
          [| | auto | auto].
        -- as_stable. stable_auto; auto.
        -- intros w H. apply Hno; [done|]. intros (r' & ? & ? & ?). congruence.
  - apply triple_ret. intros w H. apply Hno; [done|].
    intros (r' & ? & ? & ?). congruence.
Qed.

Lemma _destroyOverlay_not_opened E : triple shown _destroyOverlay (fun _ => not_opened) E.
Proof.
  unfold _destroyOverlay. apply triple_bind_this. intros p.
  destruct (_overlayRef p) as [o|] eqn:Ho.
  - eapply triple_bind with (R := fun _ => not_opened).
    + eapply triple_conseq; [apply (OverlayRef_dispose_not_opened E o) | | auto | auto].
      intros w [H <-]. by split.
    + intros ?. by apply triple_modify.
  - apply triple_ret. intros w [H <-]. unfold not_opened.
    destruct (_opened (picker w)) eqn:Hop; [|done].
    destruct (H Hop) as (o & r & Ho' & _). congruence.
Qed.

(** ** What [_openOverlay] builds *)

Lemma _openOverlay_result w :
  let w1 := fst (_destroyOverlay w) in
  _openOverlay w =
    if bool_decide (_openAs (picker w1) = dialog)
    then (opened_world w1 _getDialogStrategy, Return tt)
    else
      match timepickerInput (picker w1) with
      | Some input => (opened_world w1 (dropdown_strategy (picker w1) input), Return tt)
      | None =>
          (w1, Throw "TypeError: Cannot read properties of undefined (reading 'getConnectedOverlayOrigin')")
      end.
Proof.
  pose proof (_destroyOverlay_returns w) as Hd.
  unfold _openOverlay, bind in *.
  destruct (_destroyOverlay w) as [w1 [[]|e]]; [clear Hd | done].
  unfold this, _getDropdownStrategy, Overlay_create, OverlayRef_attach, _forwardContentValues,
    bind, this, world, when, update, modify, emit, ret, throw, opened_world, dropdown_strategy.
  simpl.
  destruct (bool_decide (_openAs (picker w1) = dialog)); simpl.
  - unfold with_overlays, with_picker, with_trace, with_onStable. simpl.
    by rewrite !alter_last.
  - destruct (timepickerInput (picker w1)); simpl; [|done].
    unfold with_overlays, with_picker, with_trace, with_onStable. simpl.
    by rewrite !alter_last.
Qed.

Lemma ready_opened_world w1 strategy : ready (opened_world w1 strategy).
Proof.
  eexists _, _. simpl. split; [reflexivity|].
  split; [apply list_lookup_middle; reflexivity|]. done.
Qed.

Lemma close_shown E : stable shown E close.
Proof.
  eapply triple_conseq; [apply (close_not_opened E) | done | | auto].
  intros ? w. apply not_opened_shown.
Qed.
#[export] Hint Resolve close_shown : stable.

Lemma deliver_shown E ev : stable shown E (deliver ev).
Proof. unfold deliver, closeStream_subscriber, keydown_subscriber. stable_auto; auto. Qed.
#[export] Hint Resolve deliver_shown : stable.

Lemma OverlayRef_updatePosition_shown E o : stable shown E (OverlayRef_updatePosition o).
Proof. unfold OverlayRef_updatePosition. stable_auto; auto. Qed.
#[export] Hint Resolve OverlayRef_updatePosition_shown : stable.

Lemma _destroyOverlay_shown E : stable shown E _destroyOverlay.
Proof.
  eapply triple_conseq; [apply (_destroyOverlay_not_opened E) | done | | auto].
  intros ? w. apply not_opened_shown.
Qed.
#[export] Hint Resolve _destroyOverlay_shown : stable.

Lemma shown_alter f o w :
  (forall r, disposed (f r) = disposed r) -> (forall r, hasAttached (f r) = hasAttached r) ->
  shown w -> shown (with_overlays (alter f o) w).
Proof.
  intros Hd Ha H Hop. destruct (H Hop) as (o' & r & Ho & Hr & Hdr & Har).
  destruct (decide (o = o')) as [->|Hne].
  - exists o', (f r). simpl. rewrite list_lookup_alter_eq, Hr. simpl.
    by rewrite Hd, Ha.
  - exists o', r. simpl. by rewrite list_lookup_alter_ne.
Qed.

Lemma open_shown : stable shown shown open.
Proof.
  intros w Hs. unfold open, bind, this. simpl.
  destruct (_opened (picker w) || truthy (disabled_get (picker w))); [exact Hs|].
  destruct (timepickerInput (picker w)) as [input|] eqn:Hin; simpl; [|exact Hs].
  pose proof (_destroyOverlay_not_opened shown w Hs) as Hn.
  pose proof (_destroyOverlay_returns w) as Hr.
  rewrite _openOverlay_result.
  destruct (_destroyOverlay w) as [w1 [[]|e]]; [clear Hr | done]. simpl.
  destruct (bool_decide (_openAs (picker w1) = dialog)); simpl.
  - intros _. apply (ready_opened_world w1 _getDialogStrategy).
  - destruct (timepickerInput (picker w1)) as [input1|]; simpl.
    + intros _. apply (ready_opened_world w1 (dropdown_strategy (picker w1) input1)).
    + by apply not_opened_shown.
Qed.
#[export] Hint Resolve open_shown : stable.

Lemma perform_shown a : stable shown shown (perform a).
Proof.
  destruct a; simpl;
    try (unfold disabled_set, opened_set, openAs_set, ngOnChanges, ngOnDestroy, registerInput,
           animationDone, onStable;
         stable_auto; auto using shown_alter; fail).
  unfold overlayEvent. apply triple_bind_world. intros w0.
  destruct (overlays w0 !! overlayRef) as [r|]; [|by apply triple_ret; intros w [H _]].
  destruct (negb (disposed r) && hasAttached r); [|by apply triple_ret; intros w [H _]].
  destruct ev; simpl.
  - eapply triple_bind with (R := fun _ => shown); [by apply triple_ret; intros w [H _]|].
    intros ?. apply deliver_shown.
  - eapply triple_bind with (R := fun _ _ => True); [by apply triple_modify|].
    intros ?. eapply triple_conseq; [apply (deliver_detachment_not_opened shown) | done | | auto].
    intros ? w. apply not_opened_shown.
  - eapply triple_bind with (R := fun _ => shown); [by apply triple_ret; intros w [H _]|].
    intros ?. apply deliver_shown.
Qed.

Lemma after_shown history w : shown w -> shown (after history w).
Proof.
  revert w. induction history as [|a history IH]; intros w H; simpl; [done|].
  apply IH. unfold step. eapply triple_fst; [apply perform_shown | exact H].
Qed.

Lemma World_new_shown uid : shown (World_new uid).
Proof. by apply not_opened_shown. Qed.

Lemma only_open_filter o r (l : list OverlayRef) :
  only_open (Some o) l -> l !! o = Some r -> disposed r = false ->
  filter (fun r => disposed r = false) l = [r].
Proof.
  revert o. induction l as [|r0 l IH]; intros o H Hr Hd; [done|].
  rewrite filter_cons. destruct o as [|o]; simpl in Hr.
  - simplify_eq. rewrite decide_True by done. f_equal.
    apply only_open_None_filter. intros o' r' Hr' Hd'.
    by specialize (H (S o') r' Hr' Hd').
  - destruct (decide (disposed r0 = false)) as [Hd0|Hd0].
    + by specialize (H 0 r0 eq_refl Hd0).
    + apply (IH o); [|done|done]. intros o' r' Hr' Hd'.
      specialize (H (S o') r' Hr' Hd'). by simplify_eq.
Qed.

(** X1: While a picker is opened, [_overlayRef] names an overlay that is open,
    with the portal attached, and that overlay is the only one open.  This
    holds after every history of inputs, method calls, overlay events and
    animation or zone callbacks. *)
Theorem opened_picker_has_overlay (uid : nat) (history : list Action) :
  let w := after history (World_new uid) in
  _opened (picker w) = true ->
  exists o r,
    _overlayRef (picker w) = Some o /\ overlays w !! o = Some r
    /\ disposed r = false /\ hasAttached r = true
    /\ open_overlays w = [r].
Proof.
  intros w Hop.
  assert (tracked w) as Ht by apply after_tracked, World_new_tracked.
  assert (shown w) as Hs by apply after_shown, World_new_shown.
  destruct (Hs Hop) as (o & r & Ho & Hr & Hd & Ha).
  exists o, r. repeat split; try done.
  unfold tracked in Ht. rewrite Ho in Ht. by apply (only_open_filter o).
Qed.

Lemma opened_picker_has_overlay_witness :
  let w := after [act_registerInput sample_input; act_opened (BI_string "");
                  act_close; act_open; act_animationDone 0; act_open]
             (World_new 0) in
  exists o r,
    _overlayRef (picker w) = Some o /\ overlays w !! o = Some r
    /\ disposed r = false /\ hasAttached r = true
    /\ open_overlays w = [r].
Proof.
  intros w.
  apply (opened_picker_has_overlay 0
           [act_registerInput sample_input; act_opened (BI_string "");
            act_close; act_open; act_animationDone 0; act_open]).
  vm_compute. reflexivity.
Defined.

(** ** Closing from the overlay *)

Lemma close_opened_emissions w :
  _opened (picker w) = true -> closed_emissions (fst (close w)) = S (closed_emissions w).
Proof.
  intros H. unfold close, bind, this, when, modify, emit, update, closed_emissions. simpl.
  rewrite H. simpl.
  destruct (_componentRef (picker w)); simpl; rewrite H; simpl;
    rewrite !filter_app, !length_app; simpl; lia.
Qed.

Lemma deliver_returns ev w : snd (deliver ev w) = Return tt.
Proof.
  assert (stable (fun _ => True) (fun _ => False) (deliver ev)) as H.
  { unfold deliver, closeStream_subscriber, keydown_subscriber, close. stable_auto; auto. }
  specialize (H w I). by destruct (deliver ev w) as [w' [[]|e]].
Qed.

(** X2: Whenever the picker is opened, an event of its overlay for which the
    close stream emits (a backdrop click, a detachment, Escape without
    modifiers, Alt + Up Arrow) closes it: the handler returns, [_opened] is
    false afterwards and [closedStream] has emitted exactly once more. *)
Theorem closing_event_closes (uid : nat) (history : list Action) (ev : OverlayEvent) :
  let w := after history (World_new uid) in
  _opened (picker w) = true ->
  _getCloseStream (picker w) ev = true ->
  exists o,
    _overlayRef (picker w) = Some o
    /\ snd (perform (act_overlayEvent o ev) w) = Return tt
    /\ _opened (picker (step (act_overlayEvent o ev) w)) = false
    /\ closed_emissions (step (act_overlayEvent o ev) w) = S (closed_emissions w).
Proof.
  intros w Hop Hev.
  assert (shown w) as Hs by apply after_shown, World_new_shown.
  destruct (Hs Hop) as (o & r & Ho & Hr & Hd & Ha).
  exists o. split; [done|].
  unfold step, perform, overlayEvent, bind, world. simpl. rewrite Hr, Hd, Ha. simpl.
  destruct ev as [| |event]; simpl.
  - pose proof (deliver_returns backdropClick w) as Hret.
    destruct (deliver_emitting backdropClick w Hev) as (_ & He & Hc).
    rewrite (close_opened_emissions w Hop) in He.
    destruct (deliver backdropClick w) as [w' c]. simpl in *. by subst.
  - set (w2 := with_overlays (alter set_detached o) w).
    pose proof (deliver_returns detachment w2) as Hret.
    destruct (deliver_emitting detachment w2 Hev) as (_ & He & Hc).
    rewrite (close_opened_emissions w2 Hop) in He.
    destruct (deliver detachment w2) as [w' c]. simpl in *. by subst.
  - pose proof (deliver_returns (keydown event) w) as Hret.
    destruct (deliver_emitting (keydown event) w Hev) as (_ & He & Hc).
    rewrite (close_opened_emissions w Hop) in He.
    destruct (deliver (keydown event) w) as [w' c]. simpl in *. by subst.
Qed.

Lemma closing_event_closes_witness :
  let w := after [act_registerInput sample_input; act_open] (World_new 0) in
  exists o,
    _overlayRef (picker w) = Some o
    /\ snd (perform (act_overlayEvent o (keydown (plain_key ESCAPE))) w) = Return tt
    /\ _opened (picker (step (act_overlayEvent o (keydown (plain_key ESCAPE))) w)) = false
    /\ closed_emissions (step (act_overlayEvent o (keydown (plain_key ESCAPE))) w)
       = S (closed_emissions w).
Proof.
  intros w.
  apply (closing_event_closes 0 [act_registerInput sample_input; act_open]
           (keydown (plain_key ESCAPE))).
  - vm_compute. reflexivity.
  - vm_compute. reflexivity.
Defined.

(** ** Opening *)

Ltac run_unfold :=
  unfold ngOnChanges, ngOnDestroy, opened_set, open, _openOverlay, _destroyOverlay,
    _getDropdownStrategy, _forwardContentValues, overlayEvent, animationDone, onStable,
    OverlayRef_dispose, OverlayRef_attach, Overlay_create, OverlayRef_updatePosition,
    deliver, closeStream_subscriber, keydown_subscriber, close, registerInput,
    disabled_set, openAs_set.

Lemma _destroyOverlay_configuration E c n :
  stable (fun w => configuration (picker w) = c /\ length (overlays w) = n) E _destroyOverlay.
Proof.
  run_unfold. stable_auto; rewrite ?length_alter; auto.
Qed.

Lemma connectedPositions_configuration p q :
  configuration p = configuration q -> connectedPositions p = connectedPositions q.
Proof.
  intros H. rewrite !connectedPositions_fallback_order.
  unfold configuration in H. congruence.
Qed.

Lemma color_configuration p q : configuration p = configuration q -> color p = color q.
Proof.
  intros H. unfold configuration in H.
  assert (_color p = _color q) as Hc by congruence.
  assert (timepickerInput p = timepickerInput q) as Hi by congruence.
  unfold color. by rewrite Hc, Hi.
Qed.

(** X3: On a picker that has an input and is neither opened nor disabled,
    [open()] returns and the picker is opened; it has made one overlay, the
    only one open, which [_overlayRef] and [_componentRef] name, with the
    content attached and given the picker's colour, a backdrop, the panel
    class of the mode, and as position strategy the centred global one for a
    dialog and, for a popup, the one connected to the input's origin with the
    fallback positions. *)
Theorem open_opens_one_overlay (uid : nat) (history : list Action) (input : MatTimepickerInput) :
  let w := after history (World_new uid) in
  timepickerInput (picker w) = Some input ->
  _opened (picker w) = false ->
  truthy (disabled_get (picker w)) = false ->
  let w' := fst (open w) in
  let p := picker w in
  let isDialog := bool_decide (_openAs p = dialog) in
  exists r,
    snd (open w) = Return tt
    /\ _opened (picker w') = true
    /\ _overlayRef (picker w') = Some (length (overlays w))
    /\ _componentRef (picker w') = Some (length (overlays w))
    /\ overlays w' !! length (overlays w) = Some r
    /\ open_overlays w' = [r]
    /\ hasAttached r = true
    /\ instance r = Some {| content_timepicker := true; content_color := color p |}
    /\ getConfig r =
       {| positionStrategy :=
            if isDialog then GlobalPositionStrategy true true else dropdown_strategy p input;
          hasBackdrop := true;
          backdropClass :=
            [ if isDialog then "cdk-overlay-dark-backdrop"
              else "mat-overlay-transparent-backdrop";
              _backdropHarnessClass p ];
          direction := "ltr";
          scrollStrategy := if isDialog then scroll_block else scroll_injected;
          panelClass := "mat-timepicker-" +:+ openAs_name (_openAs p) |}.
Proof.
  intros w Hin Hop Hdis w' p isDialog. subst w' p isDialog.
  assert (tracked w) as Ht by apply after_tracked, World_new_tracked.
  pose proof (_destroyOverlay_closes closed_down w Ht) as Hc.
  pose proof (_destroyOverlay_configuration (fun _ => True) _ _ w (conj eq_refl eq_refl)) as Hf.
  pose proof (_destroyOverlay_returns w) as Hr.
  unfold open, bind, this. simpl. rewrite Hop, Hdis, Hin. simpl.
  rewrite _openOverlay_result.
  destruct (_destroyOverlay w) as [w1 [[]|e]]; [clear Hr | done]. simpl.
  destruct Hf as [Hcfg Hlen]. destruct Hc as [Hc _].
  assert (_openAs (picker w1) = _openAs (picker w)
          /\ timepickerInput (picker w1) = Some input
          /\ _backdropHarnessClass (picker w1) = _backdropHarnessClass (picker w))
    as (HopenAs & Hin1 & Hbd).
  { unfold configuration in Hcfg. repeat split; congruence. }
  rewrite HopenAs, Hin1.
  unfold opened_world, open_overlays, dropdown_strategy.
  rewrite HopenAs, Hbd, (color_configuration _ _ Hcfg),
    (connectedPositions_configuration _ _ Hcfg), Hlen.
  destruct (bool_decide (_openAs (picker w) = dialog)) eqn:Hdlg; simpl;
    (eexists; split; [reflexivity|]; split; [reflexivity|]; split; [reflexivity|];
     split; [reflexivity|]; split; [by apply list_lookup_middle|];
     split; [rewrite filter_app, only_open_None_filter by done; reflexivity|];
     split; [reflexivity|]; split; reflexivity).
Qed.

Lemma open_opens_one_overlay_witness :
  let w := after [act_openAs (Some dialog); act_color palette_warn;
                  act_registerInput sample_input] (World_new 4) in
  exists r,
    snd (open w) = Return tt
    /\ overlays (fst (open w)) !! 0 = Some r
    /\ open_overlays (fst (open w)) = [r]
    /\ instance r = Some {| content_timepicker := true; content_color := palette_warn |}
    /\ positionStrategy (getConfig r) = GlobalPositionStrategy true true
    /\ panelClass (getConfig r) = "mat-timepicker-dialog"
    /\ backdropClass (getConfig r) = ["cdk-overlay-dark-backdrop"; "mat-timepicker-4-backdrop"].
Proof.
  intros w.
  destruct (open_opens_one_overlay 4
              [act_openAs (Some dialog); act_color palette_warn;
               act_registerInput sample_input] sample_input eq_refl eq_refl eq_refl)
    as (r & Hret & _ & _ & _ & Hr & Hone & _ & Hi & Hcfg).
  exists r. rewrite Hcfg.
  exact (conj Hret (conj Hr (conj Hone (conj Hi (conj eq_refl (conj eq_refl eq_refl)))))).
Defined.

(** ** One [closed] event per opening *)

Ltac balanced_side :=
  unfold balanced, not_opened, closed_emissions in *; simpl in *;
  rewrite ?filter_app, ?length_app, ?length_alter; simpl;
  try (intuition (try lia; try congruence); fail).

Lemma close_closed w : _opened (picker w) = false -> close w = (w, Return tt).
Proof. intros H. unfold close, bind, this. simpl. by rewrite H. Qed.

Lemma close_balanced E : stable balanced E close.
Proof.
  intros w Hw. destruct (_opened (picker w)) eqn:Hop.
  - pose proof (close_opened_emissions w Hop) as He.
    pose proof (close_not_opened (fun _ => False) w I) as Hn.
    pose proof (close_kept (fun l _ _ => l = overlays w) (fun _ => True) w eq_refl) as Hk.
    destruct (close w) as [w' [[]|e]]; [|done]. simpl in He.
    unfold balanced, not_opened, kept in *. rewrite Hn, Hk, He. rewrite Hop in Hw. lia.
  - by rewrite close_closed.
Qed.
#[export] Hint Resolve close_balanced : stable.

Lemma close_balanced_closed E : stable (fun w => balanced w /\ not_opened w) E close.
Proof. intros w [Hw Hn]. by rewrite close_closed. Qed.
#[export] Hint Resolve close_balanced_closed : stable.

Lemma deliver_balanced E ev : stable balanced E (deliver ev).
Proof.
  unfold deliver, closeStream_subscriber, keydown_subscriber. stable_auto; balanced_side.
Qed.
#[export] Hint Resolve deliver_balanced : stable.

Lemma deliver_balanced_closed E ev : stable (fun w => balanced w /\ not_opened w) E (deliver ev).
Proof.
  unfold deliver, closeStream_subscriber, keydown_subscriber. stable_auto; balanced_side.
Qed.
#[export] Hint Resolve deliver_balanced_closed : stable.

Lemma OverlayRef_updatePosition_balanced E o : stable balanced E (OverlayRef_updatePosition o).
Proof. unfold OverlayRef_updatePosition. stable_auto; balanced_side. Qed.
#[export] Hint Resolve OverlayRef_updatePosition_balanced : stable.

Lemma _destroyOverlay_balanced E : stable balanced E _destroyOverlay.
Proof. unfold _destroyOverlay, OverlayRef_dispose. stable_auto; balanced_side. Qed.
#[export] Hint Resolve _destroyOverlay_balanced : stable.

Lemma _destroyOverlay_balanced_closed E :
  stable (fun w => balanced w /\ not_opened w) E _destroyOverlay.
Proof. unfold _destroyOverlay, OverlayRef_dispose. stable_auto; balanced_side. Qed.

Lemma open_balanced : stable balanced balanced open.
Proof.
  intros w Hw. unfold open, bind, this. simpl.
  destruct (_opened (picker w)) eqn:Hop; simpl; [exact Hw|].
  destruct (truthy (disabled_get (picker w))); simpl; [exact Hw|].
  destruct (timepickerInput (picker w)) as [input|] eqn:Hin; simpl; [|exact Hw].
  pose proof (_destroyOverlay_balanced_closed (fun _ => True) w (conj Hw Hop)) as Hb.
  pose proof (_destroyOverlay_returns w) as Hr.
  rewrite _openOverlay_result.
  destruct (_destroyOverlay w) as [w1 [[]|e]]; [clear Hr | done]. simpl.
  destruct Hb as [Hb Hn].
  destruct (bool_decide (_openAs (picker w1) = dialog)); simpl.
  - balanced_side. rewrite Hn in Hb. lia.
  - destruct (timepickerInput (picker w1)); simpl; [|exact Hb].
    balanced_side. rewrite Hn in Hb. lia.
Qed.
#[export] Hint Resolve open_balanced : stable.

Lemma perform_balanced a : stable balanced balanced (perform a).
Proof.
  destruct a; simpl;
    unfold disabled_set, opened_set, openAs_set, ngOnChanges, ngOnDestroy, registerInput,
      overlayEvent, animationDone, onStable;
    stable_auto; balanced_side.
Qed.

Lemma after_balanced history w : balanced w -> balanced (after history w).
Proof.
  revert w. induction history as [|a history IH]; intros w H; simpl; [done|].
  apply IH. unfold step. eapply triple_fst; [apply perform_balanced | exact H].
Qed.

(** X4: After every history, [closedStream] has emitted exactly once for each
    overlay the picker has made, less one while the picker is opened: each
    opening is answered by one [closed] event, never by none or by two. *)
Theorem closed_once_per_opening (uid : nat) (history : list Action) :
  let w := after history (World_new uid) in
  closed_emissions w + (if _opened (picker w) then 1 else 0) = length (overlays w).
Proof. intros w. apply after_balanced. reflexivity. Qed.

(** ** Tearing down *)

Lemma close_paired E : stable paired E close.
Proof. unfold close. stable_auto; auto. Qed.
#[export] Hint Resolve close_paired : stable.

Lemma deliver_paired E ev : stable paired E (deliver ev).
Proof. unfold deliver, closeStream_subscriber, keydown_subscriber. stable_auto; auto. Qed.
#[export] Hint Resolve deliver_paired : stable.

Lemma OverlayRef_updatePosition_paired E o : stable paired E (OverlayRef_updatePosition o).
Proof. unfold OverlayRef_updatePosition. stable_auto; auto. Qed.
#[export] Hint Resolve OverlayRef_updatePosition_paired : stable.

Lemma _destroyOverlay_paired E : stable paired E _destroyOverlay.
Proof.
  unfold _destroyOverlay, OverlayRef_dispose.
  stable_auto; unfold paired in *; simpl in *; auto.
Qed.
#[export] Hint Resolve _destroyOverlay_paired : stable.

Lemma open_paired : stable paired paired open.
Proof.
  intros w Hw. unfold open, bind, this. simpl.
  destruct (_opened (picker w) || truthy (disabled_get (picker w))); [exact Hw|].
  destruct (timepickerInput (picker w)) as [input|] eqn:Hin; simpl; [|exact Hw].
  pose proof (_destroyOverlay_paired (fun _ => True) w Hw) as Hp.
  pose proof (_destroyOverlay_returns w) as Hr.
  rewrite _openOverlay_result.
  destruct (_destroyOverlay w) as [w1 [[]|e]]; [clear Hr | done]. simpl.
  destruct (bool_decide (_openAs (picker w1) = dialog)); simpl; [done|].
  destruct (timepickerInput (picker w1)); simpl; done.
Qed.
#[export] Hint Resolve open_paired : stable.

Lemma perform_paired a : stable paired paired (perform a).
Proof.
  destruct a; simpl;
    unfold disabled_set, opened_set, openAs_set, ngOnChanges, ngOnDestroy, registerInput,
      overlayEvent, animationDone, onStable;
    stable_auto; unfold paired in *; simpl in *; auto.
Qed.

Lemma after_paired history w : paired w -> paired (after history w).
Proof.
  revert w. induction history as [|a history IH]; intros w H; simpl; [done|].
  apply IH. unfold step. eapply triple_fst; [apply perform_paired | exact H].
Qed.

Lemma after_snoc history a w : after (history ++ [a]) w = step a (after history w).
Proof. unfold after. by rewrite foldl_app. Qed.

Lemma ngOnDestroy_returns w : snd (ngOnDestroy w) = Return tt.
Proof.
  assert (stable (fun _ => True) (fun _ => False) ngOnDestroy) as H.
  { run_unfold. stable_auto; auto. }
  specialize (H w I). by destruct (ngOnDestroy w) as [w' [[]|e]].
Qed.

Lemma ngOnDestroy_length w n :
  length (overlays w) = n -> length (overlays (fst (ngOnDestroy w))) = n.
Proof.
  intros Hn.
  assert (stable (fun w => length (overlays w) = n) (fun _ => False) ngOnDestroy) as H.
  { run_unfold. stable_auto; rewrite ?length_alter; auto. }
  specialize (H w Hn). by destruct (ngOnDestroy w) as [w' [[]|e]].
Qed.

(** X5: [ngOnDestroy()], after any history: it returns; the picker is left not
    opened, with [_overlayRef] and [_componentRef] null and no overlay open;
    and [closedStream] emits once in it if the picker was opened, not at all
    if it was not. *)
Theorem ngOnDestroy_tears_down (uid : nat) (history : list Action) :
  let w := after history (World_new uid) in
  let w' := fst (ngOnDestroy w) in
  snd (ngOnDestroy w) = Return tt
  /\ _opened (picker w') = false
  /\ _overlayRef (picker w') = None
  /\ _componentRef (picker w') = None
  /\ open_overlays w' = []
  /\ closed_emissions w' = closed_emissions w + (if _opened (picker w) then 1 else 0).
Proof.
  intros w w'.
  assert (w' = after (history ++ [act_ngOnDestroy]) (World_new uid)) as Hw'.
  { by rewrite after_snoc. }
  assert (tracked w) as Ht by apply after_tracked, World_new_tracked.
  assert (balanced w) as Hb by (by apply after_balanced).
  assert (balanced w') as Hb' by (rewrite Hw'; by apply after_balanced).
  assert (paired w') as Hp' by (rewrite Hw'; by apply after_paired).
  assert (not_opened w') as Hn.
  { assert (triple (fun _ => True) ngOnDestroy (fun _ => not_opened) (fun _ => False)) as H.
    { unfold ngOnDestroy. eapply triple_bind with (R := fun _ _ => True).
      - assert (stable (fun _ => True) (fun _ => False) _destroyOverlay) as Hs.
        { run_unfold. stable_auto; auto. }
        exact Hs.
      - intros ?. apply close_not_opened. }
    specialize (H w I). subst w'. by destruct (ngOnDestroy w) as [w1 [[]|e]]. }
  assert (closed_down w') as [Hc Ho].
  { assert (triple tracked ngOnDestroy (fun _ => closed_down) (fun _ => False)) as H.
    { unfold ngOnDestroy. eapply triple_bind; [apply _destroyOverlay_closes|].
      intros ?. apply (close_kept (fun l o _ => only_open None l /\ o = None)). }
    specialize (H w Ht). subst w'. by destruct (ngOnDestroy w) as [w1 [[]|e]]. }
  split; [apply ngOnDestroy_returns|]. split; [exact Hn|]. split; [exact Ho|].
  split; [by rewrite Hp'|]. split; [by apply only_open_None_filter|].
  pose proof (ngOnDestroy_length w _ eq_refl) as Hl. fold w' in Hl.
  unfold balanced, not_opened in *. rewrite Hn in Hb'. lia.
Qed.

(** ** When the exit animation is done *)

Lemma triple_and {A} P1 P2 (m : Run A) (Q1 Q2 : A -> World -> Prop) E1 E2 :
  triple P1 m Q1 E1 -> triple P2 m Q2 E2 ->
  triple (fun w => P1 w /\ P2 w) m (fun a w => Q1 a w /\ Q2 a w) (fun w => E1 w /\ E2 w).
Proof.
  intros H1 H2 w [Hw1 Hw2]. specialize (H1 w Hw1). specialize (H2 w Hw2).
  by destruct (m w) as [w' [a|e]].
Qed.

Lemma _destroyOverlay_torn_down E :
  triple (fun w => tracked w /\ shown w) _destroyOverlay (fun _ => torn_down) E.
Proof.
  eapply triple_conseq;
    [apply (triple_and _ _ _ _ _ _ _ (_destroyOverlay_closes E) (_destroyOverlay_not_opened E))
    | by intros w H | by intros ? w H | by intros w [H _]].
Qed.

Lemma torn_down_tracked_shown w : torn_down w -> tracked w /\ shown w.
Proof. intros [Hc Hn]. split; [by apply closed_down_tracked | by apply not_opened_shown]. Qed.

Lemma animationDone_torn_down E (waiting : list nat) :
  waiting <> [] ->
  triple (fun w => tracked w /\ shown w)
         (foldr (fun _ k => _destroyOverlay;; k) (ret tt) waiting)
         (fun _ => torn_down) E.
Proof.
  destruct waiting as [|c waiting]; [done|]. intros _. simpl.
  eapply triple_bind; [apply _destroyOverlay_torn_down|]. intros ?. cbv beta.
  as_stable. apply stable_foldr with (f := fun _ : nat => _destroyOverlay). intros ?.
  eapply triple_conseq;
    [apply (_destroyOverlay_torn_down E) | apply torn_down_tracked_shown | done | done].
Qed.

Lemma filter_ne_id (c : nat) (l : list nat) : c ∉ l -> filter (fun x => x <> c) l = l.
Proof.
  induction l as [|x l IH]; intros H; [done|].
  rewrite filter_cons. apply not_elem_of_cons in H as [Hx Hl].
  rewrite decide_True by done. by rewrite IH.
Qed.

Lemma filter_eq_nil (c : nat) (l : list nat) : c ∉ l -> filter (fun x => x = c) l = [].
Proof.
  induction l as [|x l IH]; intros H; [done|].
  rewrite filter_cons. apply not_elem_of_cons in H as [Hx Hl].
  rewrite decide_False by done. by apply IH.
Qed.

Lemma filter_eq_nonempty (c : nat) (l : list nat) : c ∈ l -> filter (fun x => x = c) l <> [].
Proof.
  intros H Hnil. by apply (filter_nil_not_elem_of (fun x => x = c) l c Hnil eq_refl).
Qed.

(** X6: When [_animationDone] of a content instance emits while a [close()]
    waits on it, the overlay is destroyed: the handler returns, no overlay
    is open, [_overlayRef] and [_componentRef] are null and the picker is not
    opened.  When no [close()] waits on that instance, nothing changes. *)
Theorem animationDone_destroys_overlay (uid : nat) (history : list Action) (c : nat) :
  let w := after history (World_new uid) in
  let w' := step (act_animationDone c) w in
  (c ∈ animationDone_subscribers w ->
   snd (perform (act_animationDone c) w) = Return tt
   /\ open_overlays w' = []
   /\ _overlayRef (picker w') = None
   /\ _componentRef (picker w') = None
   /\ _opened (picker w') = false)
  /\ (c ∉ animationDone_subscribers w -> perform (act_animationDone c) w = (w, Return tt)).
Proof.
  intros w w'. split.
  - intros Hc.
    assert (w' = after (history ++ [act_animationDone c]) (World_new uid)) as Hw'.
    { by rewrite after_snoc. }
    assert (tracked w) as Ht by apply after_tracked, World_new_tracked.
    assert (shown w) as Hs by apply after_shown, World_new_shown.
    assert (paired w') as Hp' by (rewrite Hw'; by apply after_paired).
    pose proof (animationDone_torn_down (fun _ => False)
                  (filter (fun x => x = c) (animationDone_subscribers w))
                  (filter_eq_nonempty c _ Hc)
                  (with_animationDone (filter (fun x => x <> c)) w) (conj Ht Hs)) as Hd.
    change (match animationDone c w with
            | (w', Return _) => torn_down w'
            | (w', Throw _) => False
            end) in Hd.
    unfold w', step in *. simpl in *.
    destruct (animationDone c w) as [w1 [[]|e]]; [|done]. simpl in *.
    destruct Hd as [[Hcl Ho] Hn].
    split; [done|]. split; [by apply only_open_None_filter|]. split; [done|].
    split; [by rewrite Hp'|]. done.
  - intros Hc. simpl. unfold animationDone, bind, world, modify, with_animationDone. simpl.
    rewrite filter_eq_nil, filter_ne_id by done. simpl. by destruct w.
Qed.

(** ** Position changes *)

(** X7: [ngOnChanges]: a change of [xPosition] or [yPosition] that is not the
    first gives the dropdown strategy of the existing overlay the four
    fallback positions of the picker's current values and leaves the rest of
    the overlay and the picker alone; it asks the overlay to update its
    position only while the picker is opened.  Without such a change, on the
    first change, without an overlay, and for the global strategy of a
    dialog, nothing changes at all. *)
Theorem ngOnChanges_repositions (w : World) (changes : SimpleChanges) :
  (positionChange changes = None
   \/ (exists c, positionChange changes = Some c /\ firstChange c = true)
   \/ _overlayRef (picker w) = None ->
   ngOnChanges changes w = (w, Return tt))
  /\ (forall c o r,
        positionChange changes = Some c -> firstChange c = false ->
        _overlayRef (picker w) = Some o -> overlays w !! o = Some r ->
        match positionStrategy (getConfig r) with
        | GlobalPositionStrategy _ _ => ngOnChanges changes w = (w, Return tt)
        | FlexibleConnectedPositionStrategy origin t f m l _ =>
            let w' := fst (ngOnChanges changes w) in
            let p := picker w in
            snd (ngOnChanges changes w) = Return tt
            /\ picker w' = p
            /\ overlays w'
               = <[o := set_positionStrategy
                          (FlexibleConnectedPositionStrategy origin t f m l
                             (fallback_order (xPosition p) (yPosition p))) r]> (overlays w)
            /\ trace w'
               = trace w ++ (if _opened p && negb (disposed r)
                             then [overlay_updatePosition o] else [])
        end).
Proof.
  split.
  - intros H. unfold ngOnChanges, bind, this, world. simpl.
    fold (positionChange changes).
    destruct H as [-> | [(c & -> & Hc) | Ho]]; [done| |].
    + rewrite Hc. by destruct (_overlayRef (picker w)).
    + rewrite Ho. by destruct (positionChange changes).
  - intros c o r Hc Hf Ho Hr.
    unfold ngOnChanges, bind, this, world. simpl.
    fold (positionChange changes). rewrite Hc, Ho, Hf, Hr.
    destruct (positionStrategy (getConfig r)) as [ch cv|origin t f m l old] eqn:Hs; [done|].
    unfold modify, when, opened, OverlayRef_updatePosition, bind, world, emit, modify, ret. simpl.
    rewrite connectedPositions_fallback_order.
    assert (alter (set_positionStrategy
                     (FlexibleConnectedPositionStrategy origin t f m l
                        (fallback_order (xPosition (picker w)) (yPosition (picker w))))) o
                  (overlays w)
            = <[o := set_positionStrategy
                       (FlexibleConnectedPositionStrategy origin t f m l
                          (fallback_order (xPosition (picker w)) (yPosition (picker w)))) r]>
                (overlays w)) as Ha.
    { apply list_eq. intros i. destruct (decide (o = i)) as [->|Hne].
      - rewrite list_lookup_alter_eq, Hr. simpl.
        by rewrite list_lookup_insert_eq by (by eapply lookup_lt_Some).
      - by rewrite list_lookup_alter_ne, list_lookup_insert_ne. }
    destruct (_opened (picker w)); simpl.
    + rewrite list_lookup_alter_eq, Hr. simpl.
      destruct (disposed r); simpl; rewrite Ha, ?app_nil_r; done.
    + rewrite Ha, app_nil_r. done.
Qed.

(** ** A disabled picker *)

(** X8: After [disabled] is set, the picker is disabled exactly when the value
    coerces to true (anything but null, undefined, false and 'false'; the
    empty text of a bare attribute does).  While it is disabled, [open()],
    setting [opened] to true and a click on a toggle that names it and has no
    [disabled] of its own all leave the world as it is; a toggle whose own
    [disabled] was set to false still stops the propagation of the click. *)
Theorem disabled_picker_stays_closed (w0 : World) (value : BooleanInput)
    (t : Toggle.MatTimepickerToggle) :
  let w := fst (disabled_set value w0) in
  truthy (disabled_get (picker w)) = coerceBooleanProperty value
  /\ coerceBooleanProperty (BI_string "") = true
  /\ coerceBooleanProperty (BI_string "false") = false
  /\ (coerceBooleanProperty value = true ->
      open w = (w, Return tt)
      /\ opened_set (BI_boolean true) w = (w, Return tt)
      /\ (Toggle.timepicker t = Some Toggle.the_timepicker ->
          (Toggle._disabled t = None -> Toggle.open t w = (w, Return tt))
          /\ (Toggle._disabled t = Some false ->
              Toggle.open t w
              = (with_trace (fun tr => tr ++ [stopPropagation]) w, Return tt)))).
Proof.
  intros w.
  assert (truthy (disabled_get (picker w)) = coerceBooleanProperty value) as Hd.
  { unfold w, disabled_set, bind, this, update, modify. simpl.
    destruct (decide (Some (coerceBooleanProperty value) = _disabled (picker w0))) as [He|He];
      simpl; [|done].
    unfold disabled_get. by rewrite <- He. }
  split; [exact Hd|]. split; [done|]. split; [done|].
  intros Hv. rewrite Hv in Hd.
  assert (open w = (w, Return tt)) as Hopen by (apply open_guard; by right).
  split; [exact Hopen|]. split; [exact Hopen|].
  intros Ht. split; intros Htd.
  - unfold Toggle.open, Toggle.disabled, bind, world, when. simpl.
    by rewrite Ht, Htd, Hd.
  - unfold Toggle.open, Toggle.disabled, bind, world, when. simpl.
    rewrite Ht, Htd. simpl. by rewrite Hopen.
Qed.

(** ** Identifiers *)

Lemma perform_identity a i b :
  stable (fun w => id (picker w) = i /\ _backdropHarnessClass (picker w) = b)
         (fun w => id (picker w) = i /\ _backdropHarnessClass (picker w) = b) (perform a).
Proof.
  destruct a; simpl; do 4 run_unfold; stable_auto; simpl in *; auto.
Qed.

Lemma after_identity history w :
  id (picker (after history w)) = id (picker w)
  /\ _backdropHarnessClass (picker (after history w)) = _backdropHarnessClass (picker w).
Proof.
  revert w. induction history as [|a history IH]; intros w; simpl; [done|].
  destruct (IH (step a w)) as [-> ->].
  unfold step. apply (triple_fst _ (perform a) _ w (perform_identity a _ _)). done.
Qed.

(** X9: The [id] of a picker is 'mat-timepicker-' and the value the counter had
    when it was made, and its backdrop class is the [id] and '-backdrop';
    neither changes afterwards, and pickers made at different values of the
    counter have different ids. *)
Theorem picker_id_unique (uid1 uid2 : nat) (history1 history2 : list Action) :
  let p1 := picker (after history1 (World_new uid1)) in
  let p2 := picker (after history2 (World_new uid2)) in
  id p1 = "mat-timepicker-" +:+ pretty uid1
  /\ _backdropHarnessClass p1 = id p1 +:+ "-backdrop"
  /\ (id p1 = id p2 <-> uid1 = uid2).
Proof.
  intros p1 p2. subst p1 p2.
  destruct (after_identity history1 (World_new uid1)) as [H1 B1].
  destruct (after_identity history2 (World_new uid2)) as [H2 B2].
  rewrite H1, H2, B1. simpl.
  split; [done|]. split; [done|]. split.
  - intros H. apply (inj (String.app "mat-timepicker-")) in H. by apply (inj pretty) in H.
  - by intros ->.
Qed.

(** ** Keys that do not close *)

(** X10: A key press for which the close stream does not emit never touches the
    picker, the overlays or the subscriptions: the arrow and page keys only
    have their default action prevented, every other key is ignored.  A key
    press that closes has its default action prevented as well. *)
Theorem key_press_effects (w : World) (event : KeyboardEvent) :
  (_getCloseStream (picker w) (keydown event) = false ->
   deliver (keydown event) w
   = (if scrolling_key (keyCode event)
      then with_trace (fun tr => tr ++ [preventDefault]) w else w,
      Return tt))
  /\ (_getCloseStream (picker w) (keydown event) = true ->
      exists rest, trace (fst (deliver (keydown event) w)) = trace w ++ preventDefault :: rest).
Proof.
  split; intros H.
  - unfold deliver, bind, this, when. simpl in *. rewrite H. simpl.
    unfold keydown_subscriber, when, scrolling_key.
    by destruct (Z.eqb (keyCode event) UP_ARROW || Z.eqb (keyCode event) DOWN_ARROW
                || Z.eqb (keyCode event) LEFT_ARROW || Z.eqb (keyCode event) RIGHT_ARROW
                || Z.eqb (keyCode event) PAGE_UP || Z.eqb (keyCode event) PAGE_DOWN).
  - unfold deliver, closeStream_subscriber, keydown_subscriber, close, bind, this, when,
      emit, update, modify, ret. simpl in *. rewrite H. simpl.
    destruct (_opened (picker w)) eqn:Ho; simpl;
      try destruct (_componentRef (picker w)); simpl; rewrite ?Ho; simpl;
      repeat match goal with |- context [if ?c then _ else _] => destruct c; simpl end;
      rewrite <- ?app_assoc; simpl; eexists; reflexivity.
Qed.

(** ** A toggle as constructed *)

(** X11: Whatever the [tabindex] attribute holds, the toggle's [tabIndex] is
    never NaN; and until its inputs are bound the toggle has no timepicker,
    is not disabled, and a click on it changes nothing and throws nothing.
    Once the toggle's own [disabled] is set, it no longer follows the
    picker's. *)
Theorem toggle_as_constructed (defaultTabIndex : JSValue) (w : World)
    (value : BooleanInput) (t : Toggle.MatTimepickerToggle) :
  Toggle.tabIndex (Toggle.new defaultTabIndex) <> Some S754_nan
  /\ Toggle.timepicker (Toggle.new defaultTabIndex) = None
  /\ Toggle.disabled (Toggle.new defaultTabIndex) w = Some false
  /\ Toggle.open (Toggle.new defaultTabIndex) w = (w, Return tt)
  /\ Toggle.disabled (Toggle.disabled_set value t) w = Some (coerceBooleanProperty value).
Proof.
  split; [|split; [done|split; [done|split; [done|]]]].
  - unfold Toggle.new. simpl. rewrite strict_equal_zero_cases.
    destruct (Number defaultTabIndex) as [[]|[]| |[] m e]; simpl; done.
  - unfold Toggle.disabled, Toggle.disabled_set. simpl.
    by destruct (Toggle.timepicker t) as [[]|].
Qed.
